(** * crawlbase-mcp: the retry queue, the client and the extractor

    A shallow embedding of [src/crawlbase/retry-queue.js] (class
    [RetryQueue]), of its caller [src/crawlbase/client.js] (class
    [CrawlbaseClient]) and of [src/utils/markdown.js] (class
    [MarkdownExtractor]), with the properties the specification states
    about the queue and further properties the code shows.

    - JavaScript numbers are IEEE-754 binary64 values: Rocq's primitive
      [float], whose [+], [*], [=?], [<=?] are the operations the
      JavaScript engine performs.  [calculateDelay] is written once over
      an arithmetic interface and read twice: on doubles, as the code runs
      it, and on rationals, without rounding.
    - A thrown value is any JavaScript value.  Objects carry what the
      queue looks at: whether they are callable ([typeof] gives
      'function'), whether they are [instanceof Error], the data
      properties visible on them (own or inherited) and how [String(o)]
      ends: with a string, or -- for an object that has no conversion
      method, such as one made by [Object.create(null)] -- with the
      TypeError of the engine.  The properties the queue inspects
      ([status], [code], [name]) hold undefined, null, a boolean, a number
      or a string; reading them and converting the object run no user code
      (no getter, no proxy, no [toString] that throws).
    - [async]/[await] are sequential inside one call of
      [executeWithRetry]: the model threads a [World] that holds the
      queue object and counts the calls of the task, the draws of
      [Math.random] and the delays handed to [sleep].  Each call of the
      task settles.  [debug] only writes a log line and is left out.
    - The client is read on parameters of the shape its schema describes
      ([url] a string, [token] a string or absent, the other properties
      any value; [String] of a parameter value returns).  What comes from
      outside -- how [fetch] settles in each call (it rejects with Error
      instances, or values [String] converts), the clock, the request id
      -- is an input of
      [crawl]; functions of the platform and of other packages
      ([JSON.stringify], [URLSearchParams], [parseInt], [trim], zod,
      node-html-parser, Turndown, regular-expression replacement) are
      taken as they are.
    - The extractor cuts its text by index, so there a text is the list of
      its UTF-16 code units. *)

From Stdlib Require Import PrimFloat FloatOps FloatAxioms FloatLemmas SpecFloat Uint63.
From Stdlib Require Import ZArith QArith Qpower Qround String Ascii List Bool Lia Lqa DecimalString.
From stdpp Require Import gmap strings.
Import ListNotations.

Set Default Proof Using "Type".
Local Open Scope string_scope.

(** ** Values *)

(** Values a data property of an error can hold. *)
Inductive Prim : Type :=
  | PUndefined
  | PNull
  | PBool (b : bool)
  | PNum (n : float)
  | PStr (s : string).

Record Obj : Type := mkObj {
  callable : bool;              (* typeof o === 'function' *)
  isError : bool;               (* o instanceof Error *)
  props : gmap string Prim;     (* data properties, own or inherited *)
  display : string;             (* what String(o) returns, when it returns *)
  inconvertible : bool          (* String(o) throws a TypeError: no conversion method *)
}.

Inductive Value : Type :=
  | VPrim (p : Prim)
  | VBigInt (z : Z)
  | VSymbol (description : option string)
  | VObj (o : Obj).

Coercion VPrim : Prim >-> Value.

(** [typeof v] *)
Definition typeof (v : Value) : string :=
  match v with
  | VPrim PUndefined => "undefined"
  | VPrim PNull => "object"
  | VPrim (PBool _) => "boolean"
  | VPrim (PNum _) => "number"
  | VPrim (PStr _) => "string"
  | VBigInt _ => "bigint"
  | VSymbol _ => "symbol"
  | VObj o => if callable o then "function" else "object"
  end.

Definition isNull (v : Value) : bool :=
  match v with VPrim PNull => true | _ => false end.

(** [v instanceof Error] *)
Definition instanceofError (v : Value) : bool :=
  match v with VObj o => isError o | _ => false end.

(** A value that is not an object: undefined, null, a boolean, a number, a
    string, a bigint or a symbol.  Functions are objects. *)
Definition isPrimitive (v : Value) : bool :=
  match v with VObj _ => false | _ => true end.

(** [o.k] on an object: the property, or undefined when there is none. *)
Definition Get (o : Obj) (k : string) : Prim := default PUndefined (props o !! k).

(** [v.k] on any value the access does not throw on.  A primitive has none
    of the data properties the queue reads; null and undefined have no
    properties at all. *)
Definition GetV (v : Value) (k : string) : Prim :=
  match v with VObj o => Get o k | _ => PUndefined end.

(** [a === b] *)
Definition strictEq (a b : Prim) : bool :=
  match a, b with
  | PUndefined, PUndefined => true
  | PNull, PNull => true
  | PBool x, PBool y => Bool.eqb x y
  | PNum x, PNum y => PrimFloat.eqb x y
  | PStr x, PStr y => String.eqb x y
  | _, _ => false
  end.

(** [new Error(msg)]: a fresh Error instance; [name] comes from
    [Error.prototype]. *)
Definition newError (msg : string) : Value :=
  VObj {| callable := false;
          isError := true;
          props := <["message" := PStr msg]> {["name" := PStr "Error"]};
          display := if String.eqb msg EmptyString then "Error" else "Error: " ++ msg;
          inconvertible := false |}.

(** [new TypeError(msg)] *)
Definition newTypeError (msg : string) : Value :=
  VObj {| callable := false;
          isError := true;
          props := <["message" := PStr msg]> {["name" := PStr "TypeError"]};
          display := "TypeError: " ++ msg;
          inconvertible := false |}.

(** What [String(o)] throws on an object with no conversion method (the
    wording is V8's). *)
Definition cannotConvert : Value :=
  newTypeError "Cannot convert object to primitive value".

(** [String(v)] throws. *)
Definition throwsOnString (v : Value) : bool :=
  match v with VObj o => inconvertible o | _ => false end.

(** ** Completions *)

(** How a call ends: with a value, or by throwing one. *)
Inductive Completion (A : Type) : Type :=
  | Normal (a : A)
  | Throw (e : Value).
Arguments Normal {A} a.
Arguments Throw {A} e.

(** ** The queue object *)

(** Options handed to [new PQueue(...)] (the p-queue package). *)
Record PQueueOptions : Type := mkPQueueOptions {
  concurrency : nat;
  interval : nat;
  intervalCap : nat
}.

Record RetryQueue : Type := mkRetryQueue {
  queue : PQueueOptions;
  maxRetries : nat;
  baseDelay : float
}.

(** [new RetryQueue(...args)]: the constructor declares no parameter, so
    whatever is passed is dropped. *)
Definition constructor (args : list Value) : RetryQueue :=
  {| queue := {| concurrency := 20; interval := 1000; intervalCap := 20 |};
     maxRetries := 3;
     baseDelay := 1000%float |}.

(** ** RetryQueue.calculateDelay *)

(** The arithmetic [calculateDelay] uses.  The code runs it on doubles
    ([binary64]); [exact] reads the same expression over the rationals,
    without rounding. *)
Class Arith (num : Type) : Type := {
  num_tenth : num;                    (* the literal 0.1 *)
  num_mul : num -> num -> num;
  num_add : num -> num -> num;
  num_pow2 : nat -> num               (* Math.pow(2, n), n an attempt number *)
}.

Declare Scope num_scope.
Delimit Scope num_scope with num.
Notation "a * b" := (num_mul a b) : num_scope.
Notation "a + b" := (num_add a b) : num_scope.

(** The double nearest to 0.1. *)
Definition tenth : float := 0x1.999999999999ap-4%float.

#[export] Instance binary64 : Arith float := {
  num_tenth := tenth;
  num_mul := PrimFloat.mul;
  num_add := PrimFloat.add;
  num_pow2 n := Z.ldexp 1%float (Z.of_nat n)
}.

#[export] Instance exact : Arith Q := {
  num_tenth := (1 # 10)%Q;
  num_mul := Qmult;
  num_add := Qplus;
  num_pow2 n := (2 ^ Z.of_nat n)%Q
}.

(** [random] is what [Math.random()] returns in this call. *)
Definition calculateDelay {num : Type} {A : Arith num}
    (baseDelay : num) (random : num) (attempt : nat) : num :=
  let exponentialDelay := (baseDelay * num_pow2 attempt)%num in
  let jitter := (random * num_tenth * exponentialDelay)%num in
  (exponentialDelay + jitter)%num.

(** ** Effects *)

(** What one call of [executeWithRetry] works on: the queue object [this]
    and what the call has done so far. *)
Record World : Type := mkWorld {
  self : RetryQueue;      (* the object behind this *)
  calls : nat;            (* calls of the task *)
  draws : nat;            (* calls of Math.random *)
  sleeps : list float     (* delays handed to sleep, oldest first *)
}.

Definition M (A : Type) : Type := World -> Completion A * World.

Definition ret {A : Type} (a : A) : M A := fun w => (Normal a, w).

Definition throw {A : Type} (e : Value) : M A := fun w => (Throw e, w).

(** An expression that touches nothing and ends as [c]. *)
Definition evaluate {A : Type} (c : Completion A) : M A := fun w => (c, w).

Definition bind {A B : Type} (c : M A) (k : A -> M B) : M B :=
  fun w =>
    match c w with
    | (Normal a, w') => k a w'
    | (Throw e, w') => (Throw e, w')
    end.

(** [try { return c } catch (error) { handler }]; a throw inside the
    handler leaves the function. *)
Definition tryReturn {A : Type} (c : M A) (handler : Value -> M A) : M A :=
  fun w =>
    match c w with
    | (Normal a, w') => (Normal a, w')
    | (Throw e, w') => handler e w'
    end.

Notation "'let*' x ':=' c 'in' k" := (bind c (fun x => k))
  (at level 10, x name, c at level 100, k at level 200).

(** [this.field] *)
Definition this {A : Type} (field : RetryQueue -> A) : M A :=
  fun w => (Normal (field (self w)), w).

(** A task is a zero-argument async function; [fn i] is how its call number
    [i] (from 0) settles. *)
Definition Task : Type := nat -> Completion Value.

(** [await fn()] *)
Definition callTask (fn : Task) : M Value :=
  fun w => (fn (calls w),
            {| self := self w; calls := S (calls w); draws := draws w; sleeps := sleeps w |}).

(** [Math.random()]; [random i] is the result of draw number [i]. *)
Definition mathRandom (random : nat -> float) : M float :=
  fun w => (Normal (random (draws w)),
            {| self := self w; calls := calls w; draws := S (draws w); sleeps := sleeps w |}).

(** [await this.sleep(ms)] *)
Definition sleep (ms : float) : M unit :=
  fun w => (Normal tt,
            {| self := self w; calls := calls w; draws := draws w;
               sleeps := sleeps w ++ [ms] |}).

(** A call on the queue [q] that has done nothing yet. *)
Definition start (q : RetryQueue) : World :=
  {| self := q; calls := 0; draws := 0; sleeps := [] |}.

(** ** Rounding to a double

    What [Prim2SF], [SFmul] and [SFadd] of the Standard Library compute,
    read on rationals: a positive dyadic [M * 2^e] is rounded at the
    exponent [roundExponent M e], its mantissa there is [roundMantissa M e]
    (nearest integer, ties to even), and [assemble] packs the two into a
    float. *)

(** The nearest integer, ties to even. *)
Definition roundHalfEven (x : Q) : Z :=
  let f := Qfloor x in
  match Qcompare (x - inject_Z f) (1 # 2) with
  | Lt => f
  | Eq => if Z.even f then f else (f + 1)%Z
  | Gt => (f + 1)%Z
  end.

Definition twoTo (e : Z) : Q := (2 ^ e)%Q.

(** The rational [M * 2^e]. *)
Definition dyadic (M e : Z) : Q := (inject_Z M * twoTo e)%Q.

(** The exponent a positive dyadic [M * 2^e] is rounded at. *)
Definition roundExponent (M : positive) (e : Z) : Z :=
  fexp prec emax (Z.pos (digits2_pos M) + e).

(** Its mantissa at that exponent, rounded to nearest even. *)
Definition roundMantissa (M : positive) (e : Z) : Z :=
  roundHalfEven (dyadic (Z.pos M) (e - roundExponent M e)).

(** The float with mantissa [m] (at most 2^53) at exponent [t]. *)
Definition assemble (m t : Z) : spec_float :=
  match m with
  | Z0 => S754_zero false
  | Zpos p =>
      if (m =? 2 ^ 53)%Z then
        if (t + 1 <=? 971)%Z then S754_finite false (2 ^ 52)%positive (t + 1)
        else S754_infinity false
      else if (t <=? 971)%Z then S754_finite false p t
      else S754_infinity false
  | Zneg _ => S754_nan
  end.

(** Zero or a positive finite number. *)
Definition SFnonnegFinite (x : spec_float) : bool :=
  match x with
  | S754_zero _ => true
  | S754_finite false _ _ => true
  | _ => false
  end.

(** A positive normal number. *)
Definition SFposNormal (x : spec_float) : bool :=
  match x with
  | S754_finite false m _ => (Z.pos (digits2_pos m) =? 53)%Z
  | _ => false
  end.

Definition nonnegFinite (x : float) : bool := SFnonnegFinite (Prim2SF x).

Definition posNormal (x : float) : bool := SFposNormal (Prim2SF x).

(** ** Values and tasks to run the queue on *)

(** An Error instance carrying an HTTP status:
    [Object.assign(new Error('HTTP error'), { status })]. *)
Definition httpError (status : float) : Value :=
  VObj {| callable := false;
          isError := true;
          props := <["status" := PNum status]>
                     (<["message" := PStr "HTTP error"]> {["name" := PStr "Error"]});
          display := "Error: HTTP error";
          inconvertible := false |}.

(** The object literal [{ status }], which is no Error instance. *)
Definition plainFailure (status : float) : Value :=
  VObj {| callable := false;
          isError := false;
          props := {["status" := PNum status]};
          display := "[object Object]";
          inconvertible := false |}.

(** [Object.assign(Object.create(null), { status })]: an object without
    [toString] and [valueOf]. *)
Definition bareFailure (status : float) : Value :=
  VObj {| callable := false;
          isError := false;
          props := {["status" := PNum status]};
          display := EmptyString;
          inconvertible := true |}.

(** The class [class TimeoutError extends Error {}] itself (thrown without
    [new]): a function whose [name] is 'TimeoutError'. *)
Definition TimeoutErrorClass : Value :=
  VObj {| callable := true;
          isError := false;
          props := {["name" := PStr "TimeoutError"]};
          display := "class TimeoutError extends Error {}";
          inconvertible := false |}.

(** The object literal [{ maxRetries: 5 }]. *)
Definition fiveRetries : Value :=
  VObj {| callable := false;
          isError := false;
          props := {["maxRetries" := PNum 5]};
          display := "[object Object]";
          inconvertible := false |}.

(** The option [key] of the configuration object passed first, if any. *)
Definition requested (args : list Value) (key : string) : Prim :=
  match args with
  | config :: _ => GetV config key
  | [] => PUndefined
  end.

Definition alwaysThrows (e : Value) : Task := fun _ => Throw e.

Definition alwaysReturns (v : Value) : Task := fun _ => Normal v.

(** Fails [n] times with [e], then returns [v]. *)
Definition failsThenReturns (n : nat) (e v : Value) : Task :=
  fun i => if (i <? n)%nat then Throw e else Normal v.

(** [Math.random] giving 0.5 at every draw. *)
Definition halfJitter : nat -> float := fun _ => 0.5%float.

(** The largest double below 1. *)
Definition belowOne : float := 0x1.fffffffffffffp-1%float.

(** ** Conversions to run examples with *)

Fixpoint digitsValue (s : string) (acc : Z) : option Z :=
  match s with
  | EmptyString => Some acc
  | String c s' =>
      let n := Z.of_nat (nat_of_ascii c) in
      if ((48 <=? n) && (n <=? 57))%Z
      then digitsValue s' (10 * acc + (n - 48))%Z
      else None
  end.

(** StringToNumber on a string of at most 15 decimal digits (and on the
    empty string, which is 0); NaN stands for every other case. *)
Definition digitsToNumber (s : string) : float :=
  match digitsValue s 0 with
  | Some z => if (String.length s <=? 15)%nat then PrimFloat.of_uint63 (Uint63.of_Z z) else nan
  | None => nan
  end.

(** Number::toString on the integers a double holds exactly below 2^53, on
    the infinities and on NaN; 'NaN' stands for every other case. *)
Definition integerToString (n : float) : string :=
  let signed (s : bool) (z : Z) := NilZero.string_of_int (Z.to_int (if s then - z else z)) in
  match Prim2SF n with
  | S754_zero _ => "0"
  | S754_infinity s => if s then "-Infinity" else "Infinity"
  | S754_nan => "NaN"
  | S754_finite s m e =>
      if (0 <=? e)%Z then
        if (e <=? 0)%Z then signed s (Z.pos m) else "NaN"
      else if (Z.modulo (Z.pos m) (2 ^ (- e)) =? 0)%Z then signed s (Z.pos m / 2 ^ (- e))%Z
      else "NaN"
  end.

Section Conversions.

(** ECMAScript's StringToNumber and Number::toString are taken as they
    are: every statement below holds for whatever they compute. *)
Variable StringToNumber : string -> float.
Variable NumberToString : float -> string.

(** ToNumber on a primitive. *)
Definition ToNumber (p : Prim) : float :=
  match p with
  | PUndefined => nan
  | PNull => 0%float
  | PBool true => 1%float
  | PBool false => 0%float
  | PNum n => n
  | PStr s => StringToNumber s
  end.

(** [a >= n] with a number on the right: both sides go through ToNumber,
    and a NaN makes the comparison false. *)
Definition geNumber (a : Prim) (n : float) : bool :=
  PrimFloat.leb n (ToNumber a).

(** The string [String(v)] returns, when it returns. *)
Definition ToString (v : Value) : string :=
  match v with
  | VPrim PUndefined => "undefined"
  | VPrim PNull => "null"
  | VPrim (PBool true) => "true"
  | VPrim (PBool false) => "false"
  | VPrim (PNum n) => NumberToString n
  | VPrim (PStr s) => s
  | VBigInt z => NilZero.string_of_int (Z.to_int z)
  | VSymbol d => "Symbol(" ++ default EmptyString d ++ ")"
  | VObj o => display o
  end.

(** [String(v)] *)
Definition StringOf (v : Value) : Completion string :=
  if throwsOnString v then Throw cannotConvert else Normal (ToString v).

(** ** RetryQueue.shouldRetry *)

(** The guard of [shouldRetry]: [typeof error === 'object' && error !== null]. *)
Definition isObjectNotNull (error : Value) : bool :=
  String.eqb (typeof error) "object" && negb (isNull error).

Definition shouldRetry (error : Value) : bool :=
  if isObjectNotNull error then
    match error with
    | VObj err =>
        if strictEq (Get err "status") (PNum 429) then true
        else if geNumber (Get err "status") 500 then true
        else if strictEq (Get err "code") (PStr "ECONNRESET") then true
        else if strictEq (Get err "code") (PStr "ECONNREFUSED") then true
        else if strictEq (Get err "code") (PStr "ETIMEDOUT") then true
        else if strictEq (Get err "name") (PStr "AbortError") then true
        else if strictEq (Get err "name") (PStr "TimeoutError") then true
        else false
    | _ => false
    end
  else false.

(** ** RetryQueue.executeWithRetry *)

(** [error instanceof Error ? error : new Error(String(error))], the value
    the [catch] block stores in [lastError]; [String(error)] may throw. *)
Definition asError (error : Value) : Completion Value :=
  if instanceofError error then Normal error
  else
    match StringOf error with
    | Normal text => Normal (newError text)
    | Throw typeError => Throw typeError
    end.

(** The [for] loop from [attempt] on; [fuel] bounds the iterations left.
    [this.maxRetries] and [this.baseDelay] are read where the code reads
    them. *)
Fixpoint retryLoop (fn : Task) (random : nat -> float)
    (fuel attempt : nat) (lastError : Value) : M Value :=
  match fuel with
  | O => throw lastError
  | S fuel' =>
      let* limit := this maxRetries in
      if (attempt <=? limit)%nat then
        tryReturn (callTask fn)
          (fun error =>
             let* lastError := evaluate (asError error) in
             let* limit := this maxRetries in
             if (attempt =? limit)%nat then throw lastError
             else if shouldRetry error then
               let* base := this baseDelay in
               let* r := mathRandom random in
               let delay := calculateDelay base r attempt in
               let* _ := sleep delay in
               retryLoop fn random fuel' (S attempt) lastError
             else throw lastError)
      else throw lastError
  end.

Definition executeWithRetry (fn : Task) (random : nat -> float) : M Value :=
  let* limit := this maxRetries in
  retryLoop fn random (S limit) 0 (VPrim PNull).

(** ** RetryQueue.add *)

(** [this.queue.add(async () => this.executeWithRetry(fn))]: p-queue calls
    the function once it admits it and settles as the function does. *)
Definition add (fn : Task) (random : nat -> float) : M Value :=
  executeWithRetry fn random.

(** ** What the specification says of [shouldRetry] *)

(** The error has one of the fields the classification names: [status]
    equal to 429 or at least 500, [code] one of the three network codes,
    [name] one of the two signal names. *)
Definition hasRetryableField (error : Value) : Prop :=
  strictEq (GetV error "status") (PNum 429) = true \/
  geNumber (GetV error "status") 500 = true \/
  strictEq (GetV error "code") (PStr "ECONNRESET") = true \/
  strictEq (GetV error "code") (PStr "ECONNREFUSED") = true \/
  strictEq (GetV error "code") (PStr "ETIMEDOUT") = true \/
  strictEq (GetV error "name") (PStr "AbortError") = true \/
  strictEq (GetV error "name") (PStr "TimeoutError") = true.

(** The world after one more call of the task. *)
Definition called (w : World) : World :=
  {| self := self w; calls := S (calls w); draws := draws w; sleeps := sleeps w |}.

(** The world after a failed call that is retried: one call, one draw of
    [Math.random], one sleep. *)
Definition retried (random : nat -> float) (attempt : nat) (w : World) : World :=
  {| self := self w;
     calls := S (calls w);
     draws := S (draws w);
     sleeps := sleeps w ++ [calculateDelay (baseDelay (self w)) (random (draws w)) attempt] |}.

(** The delays of the first [n] retries, when draw [k] of [Math.random]
    serves attempt [k]. *)
Definition backoffs (q : RetryQueue) (random : nat -> float) (n : nat) : list float :=
  map (fun k => calculateDelay (baseDelay q) (random k) k) (seq 0 n).

(** ** The queue on a task of any result type

    [executeWithRetry] hands on what the task resolves with and never
    looks at it.  [retryLoopAs] is the loop of [retryLoop] for a task that
    resolves with a value of type [R]: the callers of the queue pass tasks
    that resolve with records. *)

(** [await fn()] *)
Definition callTaskAs {R : Type} (fn : nat -> Completion R) : M R :=
  fun w => (fn (calls w),
            {| self := self w; calls := S (calls w); draws := draws w; sleeps := sleeps w |}).

Fixpoint retryLoopAs {R : Type} (fn : nat -> Completion R) (random : nat -> float)
    (fuel attempt : nat) (lastError : Value) : M R :=
  match fuel with
  | O => throw lastError
  | S fuel' =>
      let* limit := this maxRetries in
      if (attempt <=? limit)%nat then
        tryReturn (callTaskAs fn)
          (fun error =>
             let* lastError := evaluate (asError error) in
             let* limit := this maxRetries in
             if (attempt =? limit)%nat then throw lastError
             else if shouldRetry error then
               let* base := this baseDelay in
               let* r := mathRandom random in
               let delay := calculateDelay base r attempt in
               let* _ := sleep delay in
               retryLoopAs fn random fuel' (S attempt) lastError
             else throw lastError)
      else throw lastError
  end.

Definition executeWithRetryAs {R : Type} (fn : nat -> Completion R)
    (random : nat -> float) : M R :=
  let* limit := this maxRetries in
  retryLoopAs fn random (S limit) 0 (VPrim PNull).

Definition addAs {R : Type} (fn : nat -> Completion R) (random : nat -> float) : M R :=
  executeWithRetryAs fn random.

(** ** The course of one call of [add] *)

(** The first statement of the [catch] block completes on [error]: the
    error is an Error instance, or [String] converts it. *)
Definition completes (error : Value) : bool :=
  match asError error with
  | Normal _ => true
  | Throw _ => false
  end.

(** What the call rejects with when the [catch] block ends it on [error]:
    [lastError], or what [String(error)] threw. *)
Definition rejection (error : Value) : Value :=
  match asError error with
  | Normal lastError => lastError
  | Throw typeError => typeError
  end.

(** Call [i] of the task fails with an error that the [catch] block
    takes in and [shouldRetry] accepts. *)
Definition failsRetryably {R : Type} (fn : nat -> Completion R) (i : nat) : bool :=
  match fn i with
  | Throw e => completes e && shouldRetry e
  | Normal _ => false
  end.

(** The attempt that ends the loop, searched from [attempt] with [budget]
    retries left: the first one that does not fail retryably, or the one
    where the budget is used up. *)
Fixpoint lastAttempt {R : Type} (fn : nat -> Completion R) (attempt budget : nat) : nat :=
  match budget with
  | O => attempt
  | S budget' =>
      if failsRetryably fn attempt then lastAttempt fn (S attempt) budget' else attempt
  end.

(** How [add] settles when the call that ended the loop settled as [c]. *)
Definition settle {R : Type} (c : Completion R) : Completion R :=
  match c with
  | Normal v => Normal v
  | Throw e => Throw (rejection e)
  end.

(** The world when attempt [n] is about to start, after [n] retries. *)
Definition reached (q : RetryQueue) (random : nat -> float) (n : nat) : World :=
  {| self := q; calls := n; draws := n; sleeps := backoffs q random n |}.

(** ** The client: values and strings *)

(** ECMAScript and platform functions the client calls, taken as they are:
    [JSON.stringify(value)] (a string, undefined, or a throw),
    [URLSearchParams.prototype.toString], [parseInt(string, 10)],
    [String.prototype.trim] and [CrawlbaseParametersSchema.parse] (zod),
    whose result has the shape the schema describes. *)
Variable JSONstringify : Value -> Completion Prim.
Variable serialize : list (string * string) -> string.
Variable parseInt : string -> float.
Variable trim : string -> string.

(** ToBoolean: undefined, null, false, 0, NaN, the empty string and 0n are
    falsy. *)
Definition ToBoolean (v : Value) : bool :=
  match v with
  | VPrim PUndefined => false
  | VPrim PNull => false
  | VPrim (PBool b) => b
  | VPrim (PNum n) => negb (PrimFloat.eqb n 0 || PrimFloat.is_nan n)
  | VPrim (PStr s) => negb (String.eqb s EmptyString)
  | VBigInt z => negb (z =? 0)%Z
  | VSymbol _ => true
  | VObj _ => true
  end.

(** [a || b] *)
Definition orElse (a b : Value) : Value := if ToBoolean a then a else b.

(** [v === undefined] *)
Definition isUndefined (v : Value) : bool :=
  match v with VPrim PUndefined => true | _ => false end.

(** SameValueZero on primitives, the comparison of [Array.prototype.includes]. *)
Definition sameValueZero (a b : Prim) : bool :=
  match a, b with
  | PNum x, PNum y => PrimFloat.eqb x y || (PrimFloat.is_nan x && PrimFloat.is_nan y)
  | _, _ => strictEq a b
  end.

(** [items.includes(v)] on an array of numbers. *)
Definition includes (items : list float) (v : Prim) : bool :=
  existsb (fun c => sameValueZero (PNum c) v) items.

(** [s.split(separator)] for a separator that is not empty: the pieces
    between the occurrences of the separator, found from left to right
    without overlap.  [skip] counts the characters of a separator just
    found that are still to be passed; [piece] is the piece being read. *)
Fixpoint splitFrom (separator : string) (skip : nat) (piece s : string) : list string :=
  match s with
  | EmptyString => [piece]
  | String c s' =>
      match skip with
      | S skip' => splitFrom separator skip' piece s'
      | O =>
          if String.prefix separator s
          then piece :: splitFrom separator (String.length separator - 1) EmptyString s'
          else splitFrom separator 0 (piece ++ String c EmptyString) s'
      end
  end.

Definition splitOn (s separator : string) : list string :=
  splitFrom separator 0 EmptyString s.

(** ** CrawlbaseClient *)

(** A [CrawlbaseParameters] object: [url] is a string and [token] a string
    or absent, as the schema has them; [param_others] lists the other own
    properties in the order of [Object.entries]. *)
Record CrawlbaseParameters : Type := mkCrawlbaseParameters {
  param_url : string;
  param_token : option string;
  param_others : list (string * Value)
}.

Variable schemaParse : Value -> Completion CrawlbaseParameters.

(** [Object.entries(params)] *)
Definition entries (params : CrawlbaseParameters) : list (string * Value) :=
  (("url", VPrim (PStr (param_url params))) ::
   match param_token params with
   | Some token => [("token", VPrim (PStr token))]
   | None => []
   end ++ param_others params)%list.

(** [params.key] for one of the other properties; undefined when there is
    none. *)
Definition param (params : CrawlbaseParameters) (key : string) : Value :=
  match find (fun entry => String.eqb (fst entry) key) (param_others params) with
  | Some entry => snd entry
  | None => VPrim PUndefined
  end.

Record CrawlbaseClient : Type := mkCrawlbaseClient {
  baseUrl : string;
  normalToken : Prim;
  jsToken : Prim;
  retryQueue : RetryQueue
}.

(** [new CrawlbaseClient(normalToken, jsToken)] *)
Definition newCrawlbaseClient (normalToken jsToken : Prim) : CrawlbaseClient :=
  {| baseUrl := "https://api.crawlbase.com";
     normalToken := normalToken;
     jsToken := jsToken;
     retryQueue := constructor [] |}.

Definition needsJSToken (params : CrawlbaseParameters) : bool :=
  ToBoolean
    (orElse (orElse (orElse (orElse (orElse
       (param params "device")
       (param params "ajax_wait"))
       (param params "page_wait"))
       (param params "scroll"))
       (param params "screenshot"))
       (param params "pdf")).

Definition getToken (client : CrawlbaseClient) (params : CrawlbaseParameters) :
    Completion Prim :=
  let needsJS := needsJSToken params in
  if needsJS then
    if negb (ToBoolean (jsToken client)) then
      Throw (newError "JavaScript token required for this request but not provided")
    else Normal (jsToken client)
  else if negb (ToBoolean (normalToken client)) then
    Throw (newError "Normal token required but not provided")
  else Normal (normalToken client).

(** The callback of [Object.entries(params).forEach]: what it leaves in
    [searchParams]. *)
Definition appendEntry (searchParams : list (string * string)) (entry : string * Value) :
    Completion (list (string * string)) :=
  let key := fst entry in
  let value := snd entry in
  if negb (String.eqb key "token") && negb (String.eqb key "url") && negb (isUndefined value)
  then
    if String.eqb (typeof value) "object" then
      match JSONstringify value with
      | Normal json => Normal (searchParams ++ [(key, ToString (VPrim json))])%list
      | Throw e => Throw e
      end
    else Normal (searchParams ++ [(key, ToString value)])%list
  else Normal searchParams.

(** [items.forEach(callback)], the callback working on the state [s]. *)
Fixpoint forEach {A S : Type} (callback : S -> A -> Completion S) (items : list A) (s : S) :
    Completion S :=
  match items with
  | [] => Normal s
  | a :: rest =>
      match callback s a with
      | Normal s' => forEach callback rest s'
      | Throw e => Throw e
      end
  end.

(** The entries of a [URLSearchParams], in the order appended. *)
Definition buildRequestParams (client : CrawlbaseClient) (params : CrawlbaseParameters) :
    Completion (list (string * string)) :=
  match
    match param_token params with
    | Some token =>
        if ToBoolean (VPrim (PStr token)) then Normal (PStr token) else getToken client params
    | None => getToken client params
    end
  with
  | Throw e => Throw e
  | Normal token =>
      forEach appendEntry (entries params)
        [("token", ToString (VPrim token)); ("url", param_url params)]
  end.

(** ** CrawlbaseClient.crawl *)

(** What [fetch] resolves with: [response.status], [response.headers.get]
    (null is [None]) and how [response.text()] settles. *)
Record Response : Type := mkResponse {
  response_status : float;
  response_header : string -> option string;
  response_text : Completion string
}.

(** A [CrawlbaseError]; [None] where the object has no such property. *)
Record CrawlbaseError : Type := mkCrawlbaseError {
  error_error : Prim;
  error_status : float;
  error_pc_status : option Prim;
  error_original_status : option Prim
}.

(** The [crawlResponse] object. *)
Record CrawlbaseResponse : Type := mkCrawlbaseResponse {
  data_body : string;
  data_status : float;
  data_url : string;
  data_original_status : Prim;
  data_pc_status : Prim;
  data_screenshot_url : option string;
  data_cookies : option (gmap string string)
}.

(** A [CrawlResult]. *)
Record CrawlResult : Type := mkCrawlResult {
  result_success : bool;
  result_data : option CrawlbaseResponse;
  result_error : option CrawlbaseError;
  result_requestId : string;
  result_duration : float
}.

(** The places where [crawl] reads the clock. *)
Inductive Moment : Type :=
  | AtStart                 (* const startTime = Date.now() *)
  | AtResponse (call : nat) (* in call [call] of the task, once the text is read *)
  | AtCatch.                (* in the catch block *)

(** What one call of [crawl] gets from outside: how [fetch] settles in
    call [i] of the task for the URL asked, what [Date.now()] gives at each
    place, and the request id drawn from [Math.random].  When [fetch]
    rejects, it is with a TypeError or a DOMException, both Error
    instances; the record asks for no more than the catch block of the
    queue needs: an Error instance, or a value [String] converts. *)
Record Outside : Type := mkOutside {
  fetch : nat -> string -> Completion Response;
  fetch_rejects : forall call url e, fetch call url = Throw e ->
                    instanceofError e = true \/ throwsOnString e = false;
  DateNow : Moment -> float;
  requestId : string
}.

Definition chargeableStatuses : list float := [200; 201; 204; 301; 302; 404; 410]%float.

(** [header ? parseInt(header, 10) : null] *)
Definition statusCode (header : option string) : Prim :=
  match header with
  | Some s => if ToBoolean (VPrim (PStr s)) then PNum (parseInt s) else PNull
  | None => PNull
  end.

(** [cookies[name] = value] on an object literal: the setter of
    [__proto__] drops a string. *)
Definition setCookie (cookies : gmap string string) (name value : string) :
    gmap string string :=
  if String.eqb name "__proto__" then cookies else <[name := value]> cookies.

(** The callback of [cookieArray.forEach]. *)
Definition addCookie (cookies : gmap string string) (cookie : string) : gmap string string :=
  match splitOn cookie ";" with
  | nameValue :: _ =>
      match splitOn nameValue "=" with
      | name :: value :: _ =>
          if ToBoolean (VPrim (PStr name)) && ToBoolean (VPrim (PStr value))
          then setCookie cookies (trim name) (trim value)
          else cookies
      | _ => cookies
      end
  | [] => cookies
  end.

Definition parseCookies (setCookieHeader : string) : gmap string string :=
  fold_left addCookie (splitOn setCookieHeader ", ") ∅.

(** The task [crawl] hands to the queue, in its call number [call]. *)
Definition request (client : CrawlbaseClient) (outside : Outside)
    (validatedParams : CrawlbaseParameters) (call : nat) : Completion CrawlResult :=
  match buildRequestParams client validatedParams with
  | Throw e => Throw e
  | Normal searchParams =>
  let fetchUrl := baseUrl client ++ "?" ++ serialize searchParams in
  match fetch outside call fetchUrl with
  | Throw e => Throw e
  | Normal response =>
  match response_text response with
  | Throw e => Throw e
  | Normal responseText =>
  let duration := PrimFloat.sub (DateNow outside (AtResponse call)) (DateNow outside AtStart) in
  if PrimFloat.leb 400 (response_status response) then
    Normal {| result_success := false;
              result_data := None;
              result_error :=
                Some {| error_error :=
                          PStr (if ToBoolean (VPrim (PStr responseText)) then responseText
                                else "Request failed");
                        error_status := response_status response;
                        error_pc_status := None;
                        error_original_status := None |};
              result_requestId := requestId outside;
              result_duration := duration |}
  else
    let pcStatus := response_header response "pc_status" in
    let originalStatus := response_header response "original_status" in
    let originalStatusCode := statusCode originalStatus in
    let pcStatusCode := statusCode pcStatus in
    if negb (strictEq pcStatusCode (PNum 200)) ||
       (ToBoolean (VPrim originalStatusCode) &&
        negb (includes chargeableStatuses originalStatusCode))
    then
      Normal {| result_success := false;
                result_data := None;
                result_error :=
                  Some {| error_error :=
                            PStr ("Non-chargeable response: pc_status=" ++
                                  ToString (VPrim pcStatusCode) ++
                                  ", original_status=" ++
                                  ToString (VPrim originalStatusCode));
                          error_status := response_status response;
                          error_pc_status := Some pcStatusCode;
                          error_original_status := Some originalStatusCode |};
                result_requestId := requestId outside;
                result_duration := duration |}
    else
      let screenshotUrl := response_header response "screenshot_url" in
      let setCookieHeader := response_header response "set-cookie" in
      Normal {| result_success := true;
                result_data :=
                  Some {| data_body := responseText;
                          data_status := response_status response;
                          data_url := param_url validatedParams;
                          data_original_status := originalStatusCode;
                          data_pc_status := pcStatusCode;
                          data_screenshot_url :=
                            match screenshotUrl with
                            | Some u => if ToBoolean (VPrim (PStr u)) then Some u else None
                            | None => None
                            end;
                          data_cookies :=
                            match setCookieHeader with
                            | Some h =>
                                if ToBoolean (VPrim (PStr h)) then Some (parseCookies h)
                                else None
                            | None => None
                            end |};
                result_error := None;
                result_requestId := requestId outside;
                result_duration := duration |}
  end end end.

(** The [catch] block of [crawl]: reading [error.message] throws on null
    and undefined (the wording of the TypeError is V8's). *)
Definition crawlFailure (outside : Outside) (error : Value) : M CrawlResult :=
  if isUndefined error || isNull error then
    throw (newTypeError ("Cannot read properties of " ++ ToString error ++
                         " (reading 'message')"))
  else
    ret {| result_success := false;
           result_data := None;
           result_error :=
             Some {| error_error :=
                       if instanceofError error then GetV error "message"
                       else PStr "Unknown error";
                     error_status := 500;
                     error_pc_status := None;
                     error_original_status := None |};
           result_requestId := requestId outside;
           result_duration :=
             PrimFloat.sub (DateNow outside AtCatch) (DateNow outside AtStart) |}.

(** [crawl(params)]: how it settles, and what the call of
    [this.retryQueue.add] it makes has done. *)
Definition crawl (client : CrawlbaseClient) (outside : Outside) (random : nat -> float)
    (params : Value) : Completion CrawlResult * World :=
  match schemaParse params with
  | Throw e => (Throw e, start (retryQueue client))
  | Normal validatedParams =>
      tryReturn (addAs (request client outside validatedParams) random)
        (crawlFailure outside) (start (retryQueue client))
  end.

(** ** What is said of the client *)

(** The parameters that ask for a JavaScript token. *)
Definition jsOnly : list string :=
  ["device"; "ajax_wait"; "page_wait"; "scroll"; "screenshot"; "pdf"].

(** The token [getToken] looks at. *)
Definition selectedToken (client : CrawlbaseClient) (params : CrawlbaseParameters) : Prim :=
  if existsb (fun key => ToBoolean (param params key)) jsOnly
  then jsToken client else normalToken client.

(** The entry goes into the query string under its own key. *)
Definition isSent (entry : string * Value) : bool :=
  negb (String.eqb (fst entry) "token") && negb (String.eqb (fst entry) "url") &&
  negb (isUndefined (snd entry)).

(** The text that stands for the value of an entry in the query string. *)
Definition sentAs (entry : string * Value) (text : string) : Prop :=
  if String.eqb (typeof (snd entry)) "object"
  then exists json, JSONstringify (snd entry) = Normal json /\ text = ToString (VPrim json)
  else text = ToString (snd entry).

(** The failure [crawl] resolves with when the queue rejects. *)
Definition failureResult (outside : Outside) (message : Prim) : CrawlResult :=
  {| result_success := false;
     result_data := None;
     result_error :=
       Some {| error_error := message;
               error_status := 500;
               error_pc_status := None;
               error_original_status := None |};
     result_requestId := requestId outside;
     result_duration := PrimFloat.sub (DateNow outside AtCatch) (DateNow outside AtStart) |}.


(** ** MarkdownExtractor

    The extractor indexes and cuts its text, so a text is taken as the
    list of its UTF-16 code units. *)

(** [text.replace(/pattern/g, replacement)], [parse] of node-html-parser,
    [turndown] of the Turndown service and the DOM clean-up of
    [cleanContent], taken as they are. *)
Variable replaceAll : string -> string -> list N -> list N.

(** The code units of a string of ASCII characters. *)
Definition unitsOf (s : string) : list N :=
  map N_of_ascii (list_ascii_of_string s).

(** WhiteSpace and LineTerminator, the code units [trim] removes. *)
Definition isWhiteSpace (u : N) : bool :=
  ((9 <=? u) && (u <=? 13) || (u =? 32) || (u =? 160) || (u =? 5760) ||
   (8192 <=? u) && (u <=? 8202) || (u =? 8232) || (u =? 8233) || (u =? 8239) ||
   (u =? 8287) || (u =? 12288) || (u =? 65279))%N.

Fixpoint trimStart (text : list N) : list N :=
  match text with
  | [] => []
  | u :: rest => if isWhiteSpace u then trimStart rest else text
  end.

(** [text.trim()] *)
Definition trimText (text : list N) : list N :=
  rev (trimStart (rev (trimStart text))).

(** [text.lastIndexOf(unit)], read from index [i] on; [found] is the last
    index seen so far, -1 for none. *)
Fixpoint lastIndexFrom (unit : N) (text : list N) (i found : Z) : Z :=
  match text with
  | [] => found
  | u :: rest => lastIndexFrom unit rest (i + 1) (if (u =? unit)%N then i else found)
  end.

Definition lastIndexOf (unit : N) (text : list N) : Z :=
  lastIndexFrom unit text 0 (-1).

(** The code unit of the full stop. *)
Definition fullStop : N := 46.

(** The constant [plainText] of [generateExcerpt]. *)
Definition plainText (markdown : list N) : list N :=
  trimText
    (replaceAll "`([^`]+)`" "$1"
       (replaceAll "```[\s\S]*?```" EmptyString
          (replaceAll "\[([^\]]+)\]\([^)]+\)" "$1"
             (replaceAll "\*([^*]+)\*" "$1"
                (replaceAll "\*\*([^*]+)\*\*" "$1"
                   (replaceAll "#+\s+" EmptyString markdown)))))).

Definition generateExcerpt (markdown : list N) : list N :=
  let plainText := plainText markdown in
  if (length plainText <=? 200)%nat then plainText
  else
    let truncated := firstn 200 plainText in
    let lastSentence := lastIndexOf fullStop truncated in
    if (100 <? lastSentence)%Z then firstn (Z.to_nat (lastSentence + 1)) truncated
    else (truncated ++ [fullStop; fullStop; fullStop])%list.

(** An element as [extractTitle] reads it: its [text] and
    [getAttribute(name)], [None] where there is no such attribute. *)
Record Element : Type := mkElement {
  element_text : list N;
  element_attribute : string -> option (list N)
}.

(** A parsed document: [root.querySelector(selector)], [None] for null. *)
Definition Root : Type := string -> option Element.

Variable parseHTML : list N -> Completion Root.
Variable cleanContent : list N -> Completion (list N).
Variable turndown : list N -> Completion (list N).

(** The string [s] between double quotes. *)
Definition quoted (s : string) : string :=
  String (ascii_of_nat 34) s ++ String (ascii_of_nat 34) EmptyString.

(** [if (title) return title]: the text when it is not empty. *)
Definition nonEmpty (title : list N) : option (list N) :=
  match title with
  | [] => None
  | _ :: _ => Some title
  end.

Definition extractTitle (root : Root) : option (list N) :=
  match
    match root "title" with
    | Some titleElement => nonEmpty (trimText (element_text titleElement))
    | None => None
    end
  with
  | Some title => Some title
  | None =>
      match
        match root "h1" with
        | Some h1Element => nonEmpty (trimText (element_text h1Element))
        | None => None
        end
      with
      | Some title => Some title
      | None =>
          match root ("meta[property=" ++ quoted "og:title" ++ "]") with
          | Some metaTitle =>
              match element_attribute metaTitle "content" with
              | Some content => nonEmpty (trimText content)
              | None => None
              end
          | None => None
          end
      end
  end.

(** A [MarkdownResult]. *)
Record MarkdownResult : Type := mkMarkdownResult {
  markdown_title : list N;
  markdown_content : list N;
  markdown_excerpt : list N;
  markdown_url : Value;
  markdown_length : nat
}.

Definition extractMarkdown (html : list N) (url : Value) : Completion MarkdownResult :=
  match
    match parseHTML html with
    | Throw e => Throw e
    | Normal root =>
        let title := extractTitle root in
        match cleanContent html with
        | Throw e => Throw e
        | Normal cleanedHTML =>
            match turndown cleanedHTML with
            | Throw e => Throw e
            | Normal markdown =>
                let excerpt := generateExcerpt markdown in
                Normal {| markdown_title :=
                            match title with
                            | Some title => title
                            | None => unitsOf "Untitled"
                            end;
                          markdown_content := markdown;
                          markdown_excerpt := excerpt;
                          markdown_url := url;
                          markdown_length := length markdown |}
            end
        end
    end
  with
  | Normal result => Normal result
  | Throw error =>
      Throw (newError ("Failed to extract markdown: " ++
                       if instanceofError error
                       then ToString (VPrim (GetV error "message"))
                       else "Unknown error"))
  end.

(** ** Values to run the client and the extractor on *)

(** Stand-ins for the platform functions, to run examples with:
    [JSON.stringify] giving '{}', a query string without escaping, a
    [trim] and a [replace] that change nothing, a schema that accepts. *)
Definition stubStringify : Value -> Completion Prim := fun _ => Normal (PStr "{}").

Fixpoint joinQuery (searchParams : list (string * string)) : string :=
  match searchParams with
  | [] => EmptyString
  | [(name, value)] => name ++ "=" ++ value
  | (name, value) :: rest => name ++ "=" ++ value ++ "&" ++ joinQuery rest
  end.

Definition keepText : string -> string := fun s => s.

(** [trim] on the strings whose only white space is the space character. *)
Fixpoint dropSpaces (s : string) : string :=
  match s with
  | String " " s' => dropSpaces s'
  | _ => s
  end.

Definition reversed (s : string) : string :=
  string_of_list_ascii (rev (list_ascii_of_string s)).

Definition trimSpaces (s : string) : string :=
  reversed (dropSpaces (reversed (dropSpaces s))).

Definition keepUnits : string -> string -> list N -> list N := fun _ _ text => text.

Definition accept (validated : CrawlbaseParameters) : Value -> Completion CrawlbaseParameters :=
  fun _ => Normal validated.

(** [{ url: 'https://example.com', format: 'html', country: undefined }] *)
Definition pageRequest : CrawlbaseParameters :=
  {| param_url := "https://example.com";
     param_token := None;
     param_others := [("format", VPrim (PStr "html")); ("country", VPrim PUndefined)] |}.

(** [{ url: 'https://example.com', token: 'own', screenshot: true }] *)
Definition ownTokenRequest : CrawlbaseParameters :=
  {| param_url := "https://example.com";
     param_token := Some "own";
     param_others := [("screenshot", VPrim (PBool true))] |}.

(** [new CrawlbaseClient('normal')] and [new CrawlbaseClient()] *)
Definition normalClient : CrawlbaseClient := newCrawlbaseClient (PStr "normal") PUndefined.

Definition bareClient : CrawlbaseClient := newCrawlbaseClient PUndefined PUndefined.

(** A response with the given status and text, and the header pc_status
    if one is given. *)
Definition answer (status : float) (text : string) (pcStatus : option string) : Response :=
  {| response_status := status;
     response_header := fun name => if String.eqb name "pc_status" then pcStatus else None;
     response_text := Normal text |}.

Definition clock (moment : Moment) : float :=
  match moment with
  | AtStart => 1000
  | AtResponse _ => 1250
  | AtCatch => 1300
  end.

(** A network that answers every request with [response]. *)
Definition answering (response : Response) : Outside :=
  {| fetch := fun _ _ => Normal response;
     fetch_rejects := fun _ _ e (H : Normal response = Throw e) =>
                        match H in _ = c return
                          match c with
                          | Normal _ => True
                          | Throw _ => instanceofError e = true \/ throwsOnString e = false
                          end
                        with eq_refl => I end;
     DateNow := clock;
     requestId := "k3x9z" |}.

(** [failing e] is a network where [fetch] rejects with [e] every time. *)
Definition failing (e : Value)
    (convertible : instanceofError e = true \/ throwsOnString e = false) : Outside :=
  {| fetch := fun _ _ => Throw e;
     fetch_rejects := fun _ _ e' (H : Throw e = Throw e') =>
                        match H in _ = c return
                          match c with
                          | Normal _ => True
                          | Throw x => instanceofError x = true \/ throwsOnString x = false
                          end
                        with eq_refl => convertible end;
     DateNow := clock;
     requestId := "k3x9z" |}.

(** [Object.assign(new Error('socket hang up'), { code: 'ECONNRESET' })] *)
Definition connectionReset : Value :=
  VObj {| callable := false;
          isError := true;
          props := <["code" := PStr "ECONNRESET"]>
                     (<["message" := PStr "socket hang up"]> {["name" := PStr "Error"]});
          display := "Error: socket hang up";
          inconvertible := false |}.

(** Fails [n] times with [e], then fails with [fatal]. *)
Definition failsThenFails (n : nat) (e fatal : Value) : Task :=
  fun i => if (i <? n)%nat then Throw e else Throw fatal.

(** A document in which no selector finds anything. *)
Definition blankDocument : Root := fun _ => None.

(** * Properties *)

(** ** The classification *)

Lemma isObjectNotNull_inv (error : Value) :
  isObjectNotNull error = true ->
  exists o, error = VObj o /\ callable o = false.
Proof.
  unfold isObjectNotNull.
  destruct error as [[| | b | n | s] | z | d | o]; simpl; try discriminate.
  destruct (callable o) eqn:Hc; simpl; try discriminate.
  intros _. exists o. split; [reflexivity | assumption].
Qed.

Lemma isPrimitive_not_object (v : Value) :
  isPrimitive v = true -> isObjectNotNull v = false.
Proof.
  destruct v as [[| | b | n | s] | z | d | o]; simpl; try reflexivity; discriminate.
Qed.

Lemma shouldRetry_guard (error : Value) :
  isObjectNotNull error = false -> shouldRetry error = false.
Proof.
  unfold shouldRetry. intros ->. reflexivity.
Qed.

Lemma shouldRetry_object (o : Obj) :
  callable o = false ->
  shouldRetry (VObj o) = true <-> hasRetryableField (VObj o).
Proof.
  intros Hc. unfold shouldRetry, hasRetryableField, isObjectNotNull. simpl. rewrite Hc. simpl.
  destruct (strictEq (Get o "status") (PNum 429)); [tauto |].
  destruct (geNumber (Get o "status") 500); [tauto |].
  destruct (strictEq (Get o "code") (PStr "ECONNRESET")); [tauto |].
  destruct (strictEq (Get o "code") (PStr "ECONNREFUSED")); [tauto |].
  destruct (strictEq (Get o "code") (PStr "ETIMEDOUT")); [tauto |].
  destruct (strictEq (Get o "name") (PStr "AbortError")); [tauto |].
  destruct (strictEq (Get o "name") (PStr "TimeoutError")); [tauto |].
  split; [discriminate |].
  intros H. repeat (destruct H as [H | H]; [discriminate |]). discriminate.
Qed.

(** C2 (as the code has it): [shouldRetry] answers true exactly for a value
    that passes its guard -- [typeof] gives 'object' and the value is not
    null, which leaves functions out -- and has status 429, status >= 500,
    code ECONNRESET, ECONNREFUSED or ETIMEDOUT, or name AbortError or
    TimeoutError; on every other value it answers false. *)
Theorem shouldRetry_iff (error : Value) :
  (shouldRetry error = true <->
     typeof error = "object" /\ error <> VPrim PNull /\ hasRetryableField error) /\
  (shouldRetry error = false <->
     ~ (typeof error = "object" /\ error <> VPrim PNull /\ hasRetryableField error)).
Proof.
  assert (Hiff : shouldRetry error = true <->
     typeof error = "object" /\ error <> VPrim PNull /\ hasRetryableField error).
  { destruct (isObjectNotNull error) eqn:Hg.
    - destruct (isObjectNotNull_inv _ Hg) as (o & -> & Hc).
      rewrite (shouldRetry_object o Hc). simpl. rewrite Hc.
      split; [intros H; repeat split; [discriminate | exact H] | tauto].
    - rewrite (shouldRetry_guard _ Hg). split; [discriminate |].
      intros (Ht & Hn & _). exfalso.
      unfold isObjectNotNull in Hg. rewrite Ht in Hg. simpl in Hg.
      destruct error as [[| | b | n | s] | z | d | o]; simpl in Hg;
        try discriminate. apply Hn. reflexivity. }
  split; [exact Hiff |].
  rewrite <- Hiff. destruct (shouldRetry error); split; congruence.
Qed.

(** ** The first statement of the catch block *)

Lemma asError_Error (e : Value) : instanceofError e = true -> asError e = Normal e.
Proof. intros He. unfold asError. rewrite He. reflexivity. Qed.

Lemma asError_converts (e : Value) :
  instanceofError e = false -> throwsOnString e = false ->
  asError e = Normal (newError (ToString e)).
Proof. intros He Hs. unfold asError, StringOf. rewrite He, Hs. reflexivity. Qed.

Lemma asError_throws (e : Value) :
  instanceofError e = false -> throwsOnString e = true ->
  asError e = Throw cannotConvert.
Proof. intros He Hs. unfold asError, StringOf. rewrite He, Hs. reflexivity. Qed.

Lemma completes_iff (e : Value) :
  completes e = true <-> instanceofError e = true \/ throwsOnString e = false.
Proof.
  unfold completes, asError, StringOf.
  destruct (instanceofError e).
  - split; intros _; [left |]; reflexivity.
  - destruct (throwsOnString e).
    + split; [intros H; discriminate H | intros [H | H]; discriminate H].
    + split; intros _; [right |]; reflexivity.
Qed.

Lemma completes_asError (e : Value) :
  completes e = true -> asError e = Normal (rejection e).
Proof. unfold completes, rejection. destruct (asError e); [reflexivity | discriminate]. Qed.

Lemma rejection_unfold (e : Value) :
  rejection e =
  if instanceofError e then e
  else match StringOf e with
       | Normal text => newError text
       | Throw typeError => typeError
       end.
Proof.
  unfold rejection, asError. destruct (instanceofError e); [reflexivity |].
  destruct (StringOf e); reflexivity.
Qed.

Lemma rejection_converted (e : Value) :
  completes e = true ->
  rejection e = if instanceofError e then e else newError (ToString e).
Proof.
  intros Hc. rewrite rejection_unfold. unfold StringOf.
  destruct (instanceofError e) eqn:He; [reflexivity |].
  apply completes_iff in Hc as [Hc | ->]; [congruence | reflexivity].
Qed.

(** Whatever is thrown, the call rejects with an Error instance. *)
Lemma rejection_isError (e : Value) : instanceofError (rejection e) = true.
Proof.
  rewrite rejection_unfold. unfold StringOf.
  destruct (instanceofError e) eqn:He; [exact He |].
  destruct (throwsOnString e); reflexivity.
Qed.

(** ** The retry loop, one iteration at a time *)

Section Loop.

Variables (fn : Task) (random : nat -> float).

Lemma retryLoop_success (fuel attempt : nat) (lastError v : Value) (w : World) :
  (attempt <= maxRetries (self w))%nat ->
  fn (calls w) = Normal v ->
  retryLoop fn random (S fuel) attempt lastError w = (Normal v, called w).
Proof.
  intros Ha Hfn. simpl. unfold bind, this.
  destruct (Nat.leb_spec attempt (maxRetries (self w))) as [_ | Hlt]; [| lia].
  unfold tryReturn, callTask. rewrite Hfn. reflexivity.
Qed.

(** One iteration: what the loop does is decided by how the call settles,
    by whether the catch block can take the error in, by the attempt
    number and by the classification. *)
Lemma retryLoop_step (fuel attempt : nat) (lastError : Value) (w : World) :
  (attempt <= maxRetries (self w))%nat ->
  retryLoop fn random (S fuel) attempt lastError w =
  match fn (calls w) with
  | Normal v => (Normal v, called w)
  | Throw e =>
      if completes e && negb (attempt =? maxRetries (self w))%nat && shouldRetry e
      then retryLoop fn random fuel (S attempt) (rejection e) (retried random attempt w)
      else (Throw (rejection e), called w)
  end.
Proof.
  intros Ha. simpl. unfold bind, this, tryReturn, callTask, evaluate.
  destruct (Nat.leb_spec attempt (maxRetries (self w))) as [_ | Hlt]; [| lia].
  destruct (fn (calls w)) as [v | e]; [reflexivity |].
  unfold completes, rejection. destruct (asError e) as [lastError' | typeError]; simpl.
  - destruct (attempt =? maxRetries (self w))%nat; [reflexivity |].
    destruct (shouldRetry e); reflexivity.
  - reflexivity.
Qed.

(** The loop writes no field of the queue, and its guard, not the fuel,
    ends it: from [attempt] on there are at most [maxRetries + 1 - attempt]
    calls, whatever the fuel. *)
Lemma retryLoop_calls (fuel attempt : nat) (lastError : Value) (w : World) :
  self (snd (retryLoop fn random fuel attempt lastError w)) = self w /\
  (calls w <= calls (snd (retryLoop fn random fuel attempt lastError w)) <=
   calls w + (S (maxRetries (self w)) - attempt))%nat.
Proof.
  revert attempt lastError w.
  induction fuel as [| fuel IH]; intros attempt lastError w.
  - simpl. split; [reflexivity | lia].
  - destruct (Nat.leb_spec attempt (maxRetries (self w))) as [Ha | Ha].
    + rewrite (retryLoop_step _ _ _ _ Ha).
      destruct (fn (calls w)) as [v | e]; [simpl; split; [reflexivity | lia] |].
      destruct (completes e && negb (attempt =? maxRetries (self w))%nat && shouldRetry e);
        [| simpl; split; [reflexivity | lia]].
      specialize (IH (S attempt) (rejection e) (retried random attempt w)).
      simpl in IH |- *. destruct IH as [IHs IHc]. split; [exact IHs | lia].
    + simpl. unfold bind, this.
      destruct (Nat.leb_spec attempt (maxRetries (self w))); [lia |].
      simpl. split; [reflexivity | lia].
Qed.

(** With enough fuel for the iterations the guard allows, more fuel
    changes nothing. *)
Lemma retryLoop_fuel (fuel fuel' attempt : nat) (lastError : Value) (w : World) :
  (S (maxRetries (self w)) - attempt <= fuel)%nat ->
  (S (maxRetries (self w)) - attempt <= fuel')%nat ->
  (attempt <= maxRetries (self w))%nat ->
  retryLoop fn random fuel attempt lastError w =
  retryLoop fn random fuel' attempt lastError w.
Proof.
  revert fuel' attempt lastError w.
  induction fuel as [| fuel IH]; intros fuel' attempt lastError w H1 H2 Ha; [lia |].
  destruct fuel' as [| fuel']; [lia |].
  rewrite !retryLoop_step by assumption.
  destruct (fn (calls w)) as [v | e]; [reflexivity |].
  destruct (completes e); [| reflexivity].
  destruct (Nat.eqb_spec attempt (maxRetries (self w))) as [Heq | Hne]; [reflexivity |].
  destruct (shouldRetry e); [| reflexivity].
  apply IH; simpl; lia.
Qed.

Lemma add_unfold (w : World) :
  add fn random w = retryLoop fn random (S (maxRetries (self w))) 0 (VPrim PNull) w.
Proof. reflexivity. Qed.

End Loop.

(** ** The course of [add], for every task *)

Lemma retryLoop_retryLoopAs (fn : Task) (random : nat -> float)
    (fuel attempt : nat) (lastError : Value) (w : World) :
  retryLoop fn random fuel attempt lastError w =
  retryLoopAs fn random fuel attempt lastError w.
Proof.
  revert attempt lastError w.
  induction fuel as [| fuel IH]; intros attempt lastError w; [reflexivity |].
  simpl. unfold bind, this, tryReturn, callTask, callTaskAs, evaluate.
  destruct (attempt <=? maxRetries (self w))%nat; [| reflexivity].
  destruct (fn (calls w)) as [v | e]; [reflexivity |].
  destruct (asError e) as [lastError' | typeError]; [| reflexivity].
  simpl. destruct (attempt =? maxRetries (self w))%nat; [reflexivity |].
  destruct (shouldRetry e); [| reflexivity].
  unfold mathRandom, sleep. simpl. apply IH.
Qed.

(** [add] is [addAs] on a task that resolves with a value. *)
Lemma add_addAs (fn : Task) (random : nat -> float) (w : World) :
  add fn random w = addAs fn random w.
Proof.
  unfold add, addAs, executeWithRetry, executeWithRetryAs, bind, this.
  apply retryLoop_retryLoopAs.
Qed.

Lemma reached_succ (q : RetryQueue) (random : nat -> float) (n : nat) :
  retried random n (reached q random n) = reached q random (S n).
Proof.
  unfold retried, reached. cbn [self calls draws sleeps].
  unfold backoffs. rewrite seq_S, map_app. reflexivity.
Qed.

(** One iteration of the loop. *)
Lemma retryLoopAs_step {R : Type} (fn : nat -> Completion R) (random : nat -> float)
    (fuel attempt : nat) (lastError : Value) (w : World) :
  (attempt <= maxRetries (self w))%nat ->
  retryLoopAs fn random (S fuel) attempt lastError w =
  match fn (calls w) with
  | Normal v => (Normal v, called w)
  | Throw e =>
      if completes e && negb (attempt =? maxRetries (self w))%nat && shouldRetry e
      then retryLoopAs fn random fuel (S attempt) (rejection e) (retried random attempt w)
      else (Throw (rejection e), called w)
  end.
Proof.
  intros Ha. simpl. unfold bind, this, tryReturn, callTaskAs, evaluate.
  destruct (Nat.leb_spec attempt (maxRetries (self w))) as [_ | Hlt]; [| lia].
  destruct (fn (calls w)) as [v | e]; [reflexivity |].
  unfold completes, rejection. destruct (asError e) as [lastError' | typeError]; simpl.
  - destruct (attempt =? maxRetries (self w))%nat; [reflexivity |].
    destruct (shouldRetry e); reflexivity.
  - reflexivity.
Qed.

(** The loop, started at [attempt] with the fuel [executeWithRetry] leaves
    for it, ends at [lastAttempt] and settles as that call did. *)
Lemma retryLoopAs_run {R : Type} (q : RetryQueue) (fn : nat -> Completion R)
    (random : nat -> float) (fuel attempt : nat) (lastError : Value) :
  (attempt + fuel = S (maxRetries q))%nat ->
  (1 <= fuel)%nat ->
  retryLoopAs fn random fuel attempt lastError (reached q random attempt) =
  (settle (fn (lastAttempt fn attempt (maxRetries q - attempt))),
   called (reached q random (lastAttempt fn attempt (maxRetries q - attempt)))).
Proof.
  revert attempt lastError.
  induction fuel as [| fuel IH]; intros attempt lastError Hfuel Hpos; [lia |].
  rewrite retryLoopAs_step by (simpl; lia).
  change (calls (reached q random attempt)) with attempt.
  change (self (reached q random attempt)) with q.
  destruct (maxRetries q - attempt)%nat as [| budget] eqn:Hb.
  - simpl lastAttempt.
    destruct (fn attempt) as [v | e]; [reflexivity |].
    destruct (Nat.eqb_spec attempt (maxRetries q)) as [_ | Hne]; [| lia].
    rewrite andb_false_r. reflexivity.
  - simpl lastAttempt. unfold failsRetryably.
    destruct (fn attempt) as [v | e] eqn:Hfn; [rewrite Hfn; reflexivity |].
    destruct (Nat.eqb_spec attempt (maxRetries q)) as [Heq | _]; [lia |].
    rewrite andb_true_r.
    destruct (completes e && shouldRetry e) eqn:Hs; [| rewrite Hfn; reflexivity].
    rewrite reached_succ.
    replace budget with (maxRetries q - S attempt)%nat by lia.
    apply (IH (S attempt) (rejection e)); lia.
Qed.

(** The closed form of [addAs]: the call ends at the first attempt that
    does not fail retryably, or at attempt [maxRetries]. *)
Lemma addAs_run {R : Type} (q : RetryQueue) (fn : nat -> Completion R)
    (random : nat -> float) :
  addAs fn random (start q) =
  (settle (fn (lastAttempt fn 0 (maxRetries q))),
   called (reached q random (lastAttempt fn 0 (maxRetries q)))).
Proof.
  unfold addAs, executeWithRetryAs, bind, this. simpl self.
  change (start q) with (reached q random 0).
  rewrite (retryLoopAs_run q fn random (S (maxRetries q)) 0 (VPrim PNull)) by lia.
  rewrite Nat.sub_0_r. reflexivity.
Qed.

Lemma lastAttempt_bounds {R : Type} (fn : nat -> Completion R) (attempt budget : nat) :
  (attempt <= lastAttempt fn attempt budget <= attempt + budget)%nat.
Proof.
  revert attempt. induction budget as [| budget IH]; intros attempt; simpl; [lia |].
  destruct (failsRetryably fn attempt); [| lia].
  specialize (IH (S attempt)). lia.
Qed.

(** [lastAttempt] is [n] when every attempt before [n] fails retryably and
    attempt [n] does not, or is the last the budget allows. *)
Lemma lastAttempt_eq {R : Type} (fn : nat -> Completion R) (attempt budget n : nat) :
  (attempt <= n <= attempt + budget)%nat ->
  (forall i, (attempt <= i < n)%nat -> failsRetryably fn i = true) ->
  n = (attempt + budget)%nat \/ failsRetryably fn n = false ->
  lastAttempt fn attempt budget = n.
Proof.
  revert attempt. induction budget as [| budget IH]; intros attempt Hn Hbefore Hat; simpl.
  - lia.
  - destruct (Nat.eq_dec attempt n) as [-> | Hne].
    + destruct Hat as [Hat | Hat]; [lia | rewrite Hat; reflexivity].
    + rewrite (Hbefore attempt) by lia.
      apply IH; [lia | intros i Hi; apply Hbefore; lia |].
      destruct Hat as [Hat | Hat]; [left; lia | right; exact Hat].
Qed.

Lemma failsRetryably_intro {R : Type} (fn : nat -> Completion R) (i : nat) :
  (exists e, fn i = Throw e /\ shouldRetry e = true /\
             (instanceofError e = true \/ throwsOnString e = false)) ->
  failsRetryably fn i = true.
Proof.
  intros (e & Hfn & Hs & Hc). unfold failsRetryably. rewrite Hfn, Hs.
  rewrite (proj2 (completes_iff e) Hc). reflexivity.
Qed.

(** The run of [add] when the attempts before [n] fail retryably and
    attempt [n] ends the call. *)
Lemma add_ends_at (q : RetryQueue) (fn : Task) (random : nat -> float) (n : nat) :
  (n <= maxRetries q)%nat ->
  (forall i, (i < n)%nat ->
     exists e, fn i = Throw e /\ shouldRetry e = true /\
               (instanceofError e = true \/ throwsOnString e = false)) ->
  n = maxRetries q \/ failsRetryably fn n = false ->
  add fn random (start q) =
    (settle (fn n), {| self := q; calls := S n; draws := n; sleeps := backoffs q random n |}).
Proof.
  intros Hn Hbefore Hat.
  rewrite add_addAs, addAs_run.
  rewrite (lastAttempt_eq fn 0 (maxRetries q) n); [reflexivity | lia | | simpl; exact Hat].
  intros i Hi. apply failsRetryably_intro, Hbefore. lia.
Qed.

(** ** Outcomes of [add] *)

(** C7: a task that succeeds on attempt 0 makes [add] resolve with that
    very value, after one call of the task, with no [Math.random] draw and
    no call of [sleep]. *)
Theorem add_first_success (q : RetryQueue) (fn : Task) (random : nat -> float) (v : Value) :
  fn 0%nat = Normal v ->
  add fn random (start q) =
    (Normal v, {| self := q; calls := 1; draws := 0; sleeps := [] |}).
Proof.
  intros Hfn. rewrite add_unfold.
  rewrite (retryLoop_success fn random _ 0 _ v (start q)); [reflexivity | lia | exact Hfn].
Qed.

(** A first failure that [shouldRetry] turns down ends the call at once,
    whatever [maxRetries] is. *)
Lemma add_first_fatal (q : RetryQueue) (fn : Task) (random : nat -> float) (e : Value) :
  fn 0%nat = Throw e ->
  shouldRetry e = false ->
  add fn random (start q) =
    (Throw (rejection e), {| self := q; calls := 1; draws := 0; sleeps := [] |}).
Proof.
  intros Hfn Hs.
  rewrite (add_ends_at q fn random 0).
  - rewrite Hfn. reflexivity.
  - lia.
  - intros i Hi. lia.
  - right. unfold failsRetryably. rewrite Hfn, Hs. apply andb_false_r.
Qed.

(** C3 (as the code has it): with [maxRetries >= 1], a task whose attempt 0
    fails with an error classified non-retryable is called exactly once and
    [add] rejects at once, with no backoff sleep.  The rejection is that
    error when it is an Error instance; otherwise it is
    [new Error(String(error))] when [String] converts the error, and the
    TypeError [String(error)] throws when it does not. *)
Theorem add_non_retryable_once (q : RetryQueue) (fn : Task) (random : nat -> float) (e : Value) :
  (1 <= maxRetries q)%nat ->
  fn 0%nat = Throw e ->
  shouldRetry e = false ->
  add fn random (start q) =
    (Throw (if instanceofError e then e
            else match StringOf e with
                 | Normal text => newError text
                 | Throw typeError => typeError
                 end),
     {| self := q; calls := 1; draws := 0; sleeps := [] |}).
Proof.
  intros _ Hfn Hs. rewrite <- rejection_unfold.
  exact (add_first_fatal q fn random e Hfn Hs).
Qed.

(** C10: [shouldRetry] is false on every value that is not a non-null
    object -- undefined, null, a boolean, a number, a string, a bigint, a
    symbol -- so a task throwing one is called exactly once and [add]
    rejects at once without sleeping, whatever the value spells.  The
    rejection is [new Error(String(value))], since no such value is an
    Error instance. *)
Theorem primitive_not_retried (q : RetryQueue) (fn : Task) (random : nat -> float) (v : Value) :
  isPrimitive v = true ->
  shouldRetry v = false /\
  (fn 0%nat = Throw v ->
   add fn random (start q) =
     (Throw (newError (ToString v)),
      {| self := q; calls := 1; draws := 0; sleeps := [] |})).
Proof.
  intros Hp.
  assert (Hs : shouldRetry v = false)
    by (apply shouldRetry_guard, isPrimitive_not_object, Hp).
  split; [exact Hs |].
  intros Hfn. rewrite (add_first_fatal q fn random v Hfn Hs).
  rewrite rejection_unfold. destruct v; try discriminate; reflexivity.
Qed.

(** C1 (as the code has it): no task is called more than [maxRetries + 1]
    times.  A task whose every attempt fails with an error that is
    classified retryable and that the catch block can take in (an Error
    instance, or a value [String] converts) is called exactly
    [maxRetries + 1] times, with a backoff sleep after each attempt but the
    last, and [add] then rejects with the error of the final attempt --
    that error itself when it is an Error instance,
    [new Error(String(error))] otherwise.  An attempt that fails with a
    value that is no Error instance and that [String] cannot convert ends
    the call there, retryable or not: [add] rejects with the TypeError
    [String(error)] threw. *)
Theorem add_retryable_exhausts (q : RetryQueue) (random : nat -> float) :
  (forall fn, (calls (snd (add fn random (start q))) <= S (maxRetries q))%nat) /\
  (forall fn,
     (forall i, (i <= maxRetries q)%nat ->
        exists e, fn i = Throw e /\ shouldRetry e = true /\
                  (instanceofError e = true \/ throwsOnString e = false)) ->
     exists e,
       fn (maxRetries q) = Throw e /\
       add fn random (start q) =
         (Throw (if instanceofError e then e else newError (ToString e)),
          {| self := q; calls := S (maxRetries q); draws := maxRetries q;
             sleeps := backoffs q random (maxRetries q) |})) /\
  (forall fn n e,
     (n <= maxRetries q)%nat ->
     (forall i, (i < n)%nat ->
        exists e', fn i = Throw e' /\ shouldRetry e' = true /\
                   (instanceofError e' = true \/ throwsOnString e' = false)) ->
     fn n = Throw e ->
     instanceofError e = false ->
     throwsOnString e = true ->
     add fn random (start q) =
       (Throw cannotConvert,
        {| self := q; calls := S n; draws := n; sleeps := backoffs q random n |})).
Proof.
  split; [| split].
  - intros fn. rewrite add_unfold.
    pose proof (retryLoop_calls fn random (S (maxRetries q)) 0 (VPrim PNull) (start q))
      as [_ H].
    simpl in H |- *. lia.
  - intros fn Hall.
    destruct (Hall (maxRetries q) (Nat.le_refl _)) as (e & Hfn & Hs & Hc).
    exists e. split; [exact Hfn |].
    rewrite (add_ends_at q fn random (maxRetries q)).
    + rewrite Hfn. simpl settle.
      rewrite (rejection_converted e (proj2 (completes_iff e) Hc)). reflexivity.
    + lia.
    + intros i Hi. apply Hall. lia.
    + left. reflexivity.
  - intros fn n e Hn Hbefore Hfn He Ht.
    rewrite (add_ends_at q fn random n Hn Hbefore).
    + rewrite Hfn. simpl settle. unfold rejection.
      rewrite (asError_throws e He Ht). reflexivity.
    + right. unfold failsRetryably, completes.
      rewrite Hfn, (asError_throws e He Ht). reflexivity.
Qed.

(** A rejection comes from the call made last. *)
Lemma add_rejects (q : RetryQueue) (fn : Task) (random : nat -> float)
    (reason : Value) (w' : World) :
  add fn random (start q) = (Throw reason, w') ->
  exists n e, calls w' = S n /\ fn n = Throw e /\ reason = rejection e.
Proof.
  rewrite add_addAs, addAs_run. intros Hrun.
  exists (lastAttempt fn 0 (maxRetries q)).
  destruct (fn (lastAttempt fn 0 (maxRetries q))) as [v | e] eqn:Hfn; [discriminate |].
  simpl in Hrun. injection Hrun as <- <-.
  exists e. repeat split.
Qed.

(** C5 (as the code has it): when [add] rejects, the reason is made from
    the value the last call of the task threw: it is that very value when
    the value is an Error instance -- nothing is wrapped around it or added
    to it; when it is not, the reason is [new Error(String(value))] if
    [String] converts the value, and the TypeError [String(value)] throws
    if it does not. *)
Theorem add_rejection_reason (q : RetryQueue) (fn : Task) (random : nat -> float)
    (reason : Value) (w' : World) :
  add fn random (start q) = (Throw reason, w') ->
  exists n e,
    calls w' = S n /\ fn n = Throw e /\
    (instanceofError e = true -> reason = e) /\
    (instanceofError e = false ->
       (forall text, StringOf e = Normal text -> reason = newError text) /\
       (forall typeError, StringOf e = Throw typeError -> reason = typeError)).
Proof.
  intros Hrun.
  destruct (add_rejects q fn random reason w' Hrun) as (n & e & Hn & Hfn & ->).
  exists n, e. rewrite rejection_unfold.
  split; [exact Hn |]. split; [exact Hfn |].
  split; intros ->; [reflexivity |].
  split; intros x ->; reflexivity.
Qed.

(** The queue after [add] is the queue before it. *)
Lemma add_keeps_queue (fn : Task) (random : nat -> float) (w : World) :
  self (snd (add fn random w)) = self w.
Proof.
  rewrite add_unfold.
  exact (proj1 (retryLoop_calls fn random _ 0 (VPrim PNull) w)).
Qed.

(** X1: a task that fails [n] times, [n] within the retry budget, with
    errors that are classified retryable and that the catch block can take
    in (Error instances, or values [String] converts), and then returns
    makes [add] resolve with the value returned, after [n + 1] calls and
    [n] backoff sleeps, sleep [k] lasting [calculateDelay k]. *)
Theorem add_succeeds_after_retries (q : RetryQueue) (fn : Task) (random : nat -> float)
    (n : nat) (v : Value) :
  (n <= maxRetries q)%nat ->
  (forall i, (i < n)%nat ->
     exists e, fn i = Throw e /\ shouldRetry e = true /\
               (instanceofError e = true \/ throwsOnString e = false)) ->
  fn n = Normal v ->
  add fn random (start q) =
    (Normal v, {| self := q; calls := S n; draws := n; sleeps := backoffs q random n |}).
Proof.
  intros Hn Hbefore Hfn.
  rewrite (add_ends_at q fn random n Hn Hbefore).
  - rewrite Hfn. reflexivity.
  - right. unfold failsRetryably. rewrite Hfn. reflexivity.
Qed.

(** X2: the first failure that [shouldRetry] turns down ends the call,
    also after retries: when attempts [0 .. n-1] fail with errors that are
    classified retryable and that the catch block can take in, and attempt
    [n] fails with an error classified non-retryable, the task is called
    [n + 1] times, [n] sleeps are made, and [add] rejects with the error of
    attempt [n] -- itself if it is an Error instance,
    [new Error(String(error))] if [String] converts it, the TypeError
    [String(error)] throws if not; the errors of the earlier attempts are
    dropped. *)
Theorem add_stops_at_first_fatal (q : RetryQueue) (fn : Task) (random : nat -> float)
    (n : nat) (e : Value) :
  (n <= maxRetries q)%nat ->
  (forall i, (i < n)%nat ->
     exists e', fn i = Throw e' /\ shouldRetry e' = true /\
                (instanceofError e' = true \/ throwsOnString e' = false)) ->
  fn n = Throw e ->
  shouldRetry e = false ->
  add fn random (start q) =
    (Throw (if instanceofError e then e
            else match StringOf e with
                 | Normal text => newError text
                 | Throw typeError => typeError
                 end),
     {| self := q; calls := S n; draws := n; sleeps := backoffs q random n |}).
Proof.
  intros Hn Hbefore Hfn Hs.
  rewrite (add_ends_at q fn random n Hn Hbefore).
  - rewrite Hfn. simpl settle. rewrite rejection_unfold. reflexivity.
  - right. unfold failsRetryably. rewrite Hfn, Hs. apply andb_false_r.
Qed.

(** X3: whatever the task does, one call of [add] calls it at least once
    and at most [maxRetries + 1] times, and draws from [Math.random] and
    sleeps exactly once between two consecutive calls: draws and sleeps
    both number one less than the calls. *)
Theorem add_counts (q : RetryQueue) (fn : Task) (random : nat -> float) :
  (1 <= calls (snd (add fn random (start q))) <= S (maxRetries q))%nat /\
  S (draws (snd (add fn random (start q)))) = calls (snd (add fn random (start q))) /\
  S (length (sleeps (snd (add fn random (start q))))) = calls (snd (add fn random (start q))).
Proof.
  rewrite add_addAs, addAs_run. simpl.
  pose proof (lastAttempt_bounds fn 0 (maxRetries q)) as Hb.
  unfold backoffs. rewrite length_map, length_seq.
  repeat split; lia.
Qed.

(** X4: the jitter decides how long the sleeps last and nothing else: with
    another stream of [Math.random] outcomes, [add] settles in the same
    way, after the same number of calls and of sleeps. *)
Theorem add_ignores_jitter (q : RetryQueue) (fn : Task) (random random' : nat -> float) :
  fst (add fn random (start q)) = fst (add fn random' (start q)) /\
  calls (snd (add fn random (start q))) = calls (snd (add fn random' (start q))) /\
  length (sleeps (snd (add fn random (start q)))) =
    length (sleeps (snd (add fn random' (start q)))).
Proof.
  rewrite !add_addAs, !addAs_run. simpl.
  unfold backoffs. rewrite !length_map, !length_seq. repeat split.
Qed.

(** ** The client: which token is sent *)

Lemma orElse_ToBoolean (a b : Value) :
  ToBoolean (orElse a b) = ToBoolean a || ToBoolean b.
Proof. unfold orElse. destruct (ToBoolean a) eqn:Ha; [rewrite Ha |]; reflexivity. Qed.

Lemma needsJSToken_existsb (params : CrawlbaseParameters) :
  needsJSToken params = existsb (fun key => ToBoolean (param params key)) jsOnly.
Proof.
  unfold needsJSToken, jsOnly. rewrite !orElse_ToBoolean. simpl.
  rewrite orb_false_r, <- !orb_assoc. reflexivity.
Qed.

(** X7: [getToken] looks at one token only: the JavaScript token when one
    of device, ajax_wait, page_wait, scroll, screenshot, pdf holds a truthy
    value (false, 0 and the empty string do not count), the normal token
    otherwise.  It returns that token when it is truthy and throws an
    Error when it is not; it never falls back on the other token, and
    never returns a falsy token. *)
Theorem getToken_selection (client : CrawlbaseClient) (params : CrawlbaseParameters) :
  (forall token,
     getToken client params = Normal token <->
     token = selectedToken client params /\ ToBoolean (VPrim token) = true) /\
  (forall e,
     getToken client params = Throw e <->
     ToBoolean (VPrim (selectedToken client params)) = false /\
     e = newError
           (if existsb (fun key => ToBoolean (param params key)) jsOnly
            then "JavaScript token required for this request but not provided"
            else "Normal token required but not provided")).
Proof.
  unfold getToken, selectedToken. rewrite needsJSToken_existsb.
  destruct (existsb _ jsOnly).
  - destruct (ToBoolean (VPrim (jsToken client))) eqn:Ht; cbn [negb]; split; intros x; split.
    + intros [= <-]. auto.
    + intros [-> _]. reflexivity.
    + discriminate.
    + intros [[=] _].
    + discriminate.
    + intros [-> Hc]. congruence.
    + intros [= <-]. auto.
    + intros [_ ->]. reflexivity.
  - destruct (ToBoolean (VPrim (normalToken client))) eqn:Ht; cbn [negb]; split; intros x; split.
    + intros [= <-]. auto.
    + intros [-> _]. reflexivity.
    + discriminate.
    + intros [[=] _].
    + discriminate.
    + intros [-> Hc]. congruence.
    + intros [= <-]. auto.
    + intros [_ ->]. reflexivity.
Qed.

(** ** The client: the query string *)

Lemma forEach_appendEntry (items : list (string * Value)) (acc searchParams : list (string * string)) :
  forEach appendEntry items acc = Normal searchParams ->
  exists more,
    searchParams = (acc ++ more)%list /\
    Forall2 (fun entry sent => fst sent = fst entry /\ sentAs entry (snd sent))
      (List.filter isSent items) more.
Proof.
  revert acc. induction items as [| entry items IH]; intros acc H; simpl in H.
  - injection H as <-. exists []. rewrite app_nil_r. split; [reflexivity | constructor].
  - unfold appendEntry in H. simpl List.filter. fold (isSent entry) in H.
    destruct (isSent entry) eqn:Hsent.
    + destruct (String.eqb (typeof (snd entry)) "object") eqn:Hobj.
      * destruct (JSONstringify (snd entry)) as [json | e] eqn:Hjson; [| discriminate].
        destruct (IH _ H) as (more & -> & Hall).
        exists ((fst entry, ToString (VPrim json)) :: more).
        rewrite <- app_assoc. split; [reflexivity |].
        constructor; [| exact Hall].
        split; [reflexivity |]. unfold sentAs. rewrite Hobj. exists json. auto.
      * destruct (IH _ H) as (more & -> & Hall).
        exists ((fst entry, ToString (snd entry)) :: more).
        rewrite <- app_assoc. split; [reflexivity |].
        constructor; [| exact Hall].
        split; [reflexivity |]. unfold sentAs. rewrite Hobj. reflexivity.
    + exact (IH _ H).
Qed.

Lemma filter_isSent_entries (params : CrawlbaseParameters) :
  List.filter isSent (entries params) = List.filter isSent (param_others params).
Proof.
  unfold entries. simpl.
  destruct (param_token params); reflexivity.
Qed.

Lemma isSent_key (entry : string * Value) :
  isSent entry = true -> fst entry <> "token" /\ fst entry <> "url".
Proof.
  unfold isSent. intros H.
  apply andb_true_iff in H as [H _]. apply andb_true_iff in H as [H1 H2].
  split; intros Heq; rewrite Heq in *; discriminate.
Qed.

(** X8: the query string [buildRequestParams] returns starts with the
    token and the url, in this order; after them comes one entry for every
    other property of [params] whose value is not undefined, in the order
    of [Object.entries], under the property's key, with
    [JSON.stringify(value)] for an object (or null) and [String(value)]
    for anything else.  So 'token' and 'url' occur once each, and a
    property set to undefined is not sent. *)
Theorem buildRequestParams_layout (client : CrawlbaseClient) (params : CrawlbaseParameters)
    (searchParams : list (string * string)) :
  buildRequestParams client params = Normal searchParams ->
  exists token more,
    searchParams = ("token", token) :: ("url", param_url params) :: more /\
    Forall2 (fun entry sent => fst sent = fst entry /\ sentAs entry (snd sent))
      (List.filter isSent (param_others params)) more /\
    Forall (fun sent => fst sent <> "token" /\ fst sent <> "url") more.
Proof.
  unfold buildRequestParams. intros H.
  destruct (match param_token params with
            | Some token =>
                if ToBoolean (VPrim (PStr token)) then Normal (PStr token)
                else getToken client params
            | None => getToken client params
            end) as [token | e]; [| discriminate].
  destruct (forEach_appendEntry _ _ _ H) as (more & -> & Hall).
  rewrite filter_isSent_entries in Hall.
  exists (ToString (VPrim token)), more.
  split; [reflexivity |]. split; [exact Hall |].
  assert (Hkeys : Forall (fun entry => fst entry <> "token" /\ fst entry <> "url")
                    (List.filter isSent (param_others params))).
  { apply List.Forall_forall. intros entry Hin. apply filter_In in Hin as [_ Hs].
    exact (isSent_key entry Hs). }
  clear H. induction Hall as [| entry sent l l' [Hk _] _ IH]; [constructor |].
  inversion Hkeys; subst. constructor; [rewrite Hk; assumption | apply IH; assumption].
Qed.

Lemma forEach_appendEntry_returns (items : list (string * Value)) (acc : list (string * string)) :
  (forall entry, In entry items -> typeof (snd entry) = "object" ->
                 exists json, JSONstringify (snd entry) = Normal json) ->
  exists searchParams, forEach appendEntry items acc = Normal searchParams.
Proof.
  revert acc. induction items as [| entry items IH]; intros acc Hjson; simpl.
  - eauto.
  - unfold appendEntry.
    destruct (negb (String.eqb (fst entry) "token") && negb (String.eqb (fst entry) "url") &&
              negb (isUndefined (snd entry))).
    + destruct (String.eqb_spec (typeof (snd entry)) "object") as [Hobj | Hobj].
      * destruct (Hjson entry (or_introl eq_refl) Hobj) as (json & ->).
        apply IH. intros entry' Hin. apply Hjson. right. exact Hin.
      * apply IH. intros entry' Hin. apply Hjson. right. exact Hin.
    + apply IH. intros entry' Hin. apply Hjson. right. exact Hin.
Qed.

(** X9: a request that brings its own non-empty [token] is sent with it:
    the tokens of the client are not looked at, not even to check that a
    JavaScript token exists for a request that needs one.  The query
    string is the same for every client, starts with that token, and
    building it fails only if [JSON.stringify] does. *)
Theorem buildRequestParams_own_token (client : CrawlbaseClient)
    (params : CrawlbaseParameters) (token : string) :
  param_token params = Some token ->
  token <> EmptyString ->
  (forall client', buildRequestParams client' params = buildRequestParams client params) /\
  (forall searchParams,
     buildRequestParams client params = Normal searchParams ->
     hd_error searchParams = Some ("token", token)) /\
  ((forall entry, In entry (param_others params) -> typeof (snd entry) = "object" ->
                  exists json, JSONstringify (snd entry) = Normal json) ->
   exists searchParams, buildRequestParams client params = Normal searchParams).
Proof.
  intros Ht Hne.
  assert (Htruthy : ToBoolean (VPrim (PStr token)) = true).
  { simpl. destruct (String.eqb_spec token EmptyString); [contradiction | reflexivity]. }
  unfold buildRequestParams. rewrite Ht, Htruthy.
  split; [reflexivity |]. split.
  - intros searchParams H.
    destruct (forEach_appendEntry _ _ _ H) as (more & -> & _). reflexivity.
  - intros Hjson. apply forEach_appendEntry_returns.
    intros entry Hin Hobj. unfold entries in Hin. rewrite Ht in Hin.
    destruct Hin as [<- | [<- | Hin]]; [discriminate | discriminate |].
    exact (Hjson entry Hin Hobj).
Qed.

(** ** The client: crawl *)

Lemma crawlFailure_Error (outside : Outside) (error : Value) (w : World) :
  instanceofError error = true ->
  crawlFailure outside error w = (Normal (failureResult outside (GetV error "message")), w).
Proof.
  intros He. unfold crawlFailure, failureResult.
  destruct error as [p | z | d | o]; simpl in He; try discriminate.
  simpl. rewrite He. reflexivity.
Qed.

(** The closed form of [crawl] on validated parameters: the queue ends at
    [lastAttempt]; what that call of the task returned is the result, and
    what it threw is reported as a failure. *)
Lemma crawl_run (client : CrawlbaseClient) (outside : Outside) (random : nat -> float)
    (params : Value) (validated : CrawlbaseParameters) :
  schemaParse params = Normal validated ->
  crawl client outside random params =
  (Normal
     match request client outside validated
             (lastAttempt (request client outside validated) 0
                (maxRetries (retryQueue client))) with
     | Normal result => result
     | Throw e => failureResult outside (GetV (rejection e) "message")
     end,
   called (reached (retryQueue client) random
             (lastAttempt (request client outside validated) 0
                (maxRetries (retryQueue client))))).
Proof.
  intros Hparse. unfold crawl. rewrite Hparse. unfold tryReturn.
  rewrite addAs_run.
  destruct (request client outside validated _) as [result | e]; [reflexivity |].
  simpl settle. apply crawlFailure_Error, rejection_isError.
Qed.

Lemma request_build_throws (client : CrawlbaseClient) (outside : Outside)
    (validated : CrawlbaseParameters) (e : Value) (call : nat) :
  buildRequestParams client validated = Throw e ->
  request client outside validated call = Throw e.
Proof. intros H. unfold request. rewrite H. reflexivity. Qed.

Lemma request_fetch_throws (client : CrawlbaseClient) (outside : Outside)
    (validated : CrawlbaseParameters) (searchParams : list (string * string))
    (e : Value) (call : nat) :
  buildRequestParams client validated = Normal searchParams ->
  fetch outside call (baseUrl client ++ "?" ++ serialize searchParams) = Throw e ->
  request client outside validated call = Throw e.
Proof. intros Hb Hf. unfold request. rewrite Hb, Hf. reflexivity. Qed.

Lemma getToken_throws (client : CrawlbaseClient) (params : CrawlbaseParameters) :
  ToBoolean (VPrim (selectedToken client params)) = false ->
  getToken client params =
  Throw (newError
           (if existsb (fun key => ToBoolean (param params key)) jsOnly
            then "JavaScript token required for this request but not provided"
            else "Normal token required but not provided")).
Proof.
  unfold getToken, selectedToken. rewrite needsJSToken_existsb.
  destruct (existsb _ jsOnly); intros ->; reflexivity.
Qed.

Lemma shouldRetry_newError (msg : string) : shouldRetry (newError msg) = false.
Proof. vm_compute. reflexivity. Qed.

Lemma message_newError (msg : string) : GetV (newError msg) "message" = PStr msg.
Proof. vm_compute. reflexivity. Qed.

(** X10: [crawl] rejects only when the validation of its parameters
    throws, and then with what the validation threw, before the task is
    called.  On parameters that pass, it always resolves with a result,
    whatever [fetch] and the task do, after at least one and at most
    [maxRetries + 1] calls of the task (four, for a client as built). *)
Theorem crawl_settles (client : CrawlbaseClient) (outside : Outside)
    (random : nat -> float) (params : Value) :
  (forall e,
     schemaParse params = Throw e ->
     crawl client outside random params =
       (Throw e, start (retryQueue client))) /\
  (forall validated,
     schemaParse params = Normal validated ->
     exists result w',
       crawl client outside random params = (Normal result, w') /\
       (1 <= calls w' <= S (maxRetries (retryQueue client)))%nat).
Proof.
  split.
  - intros e Hparse. unfold crawl. rewrite Hparse. reflexivity.
  - intros validated Hparse. rewrite (crawl_run _ _ _ _ _ Hparse).
    eexists. eexists. split; [reflexivity |]. simpl.
    pose proof (lastAttempt_bounds (request client outside validated) 0
                  (maxRetries (retryQueue client))). lia.
Qed.

(** X11: when the queue rejects, [crawl] resolves with a failure of status
    500 whose text is the [message] of the rejection: the queue rejects
    with Error instances only, so the fallback text 'Unknown error' is
    never used and reading [error.message] never throws. *)
Theorem crawl_reports_rejection (client : CrawlbaseClient) (outside : Outside)
    (random : nat -> float) (params : Value) (validated : CrawlbaseParameters)
    (reason : Value) (w' : World) :
  schemaParse params = Normal validated ->
  addAs (request client outside validated) random (start (retryQueue client)) =
    (Throw reason, w') ->
  instanceofError reason = true /\
  crawl client outside random params =
    (Normal {| result_success := false;
               result_data := None;
               result_error :=
                 Some {| error_error := GetV reason "message";
                         error_status := 500;
                         error_pc_status := None;
                         error_original_status := None |};
               result_requestId := requestId outside;
               result_duration :=
                 PrimFloat.sub (DateNow outside AtCatch) (DateNow outside AtStart) |},
     w').
Proof.
  intros Hparse Hadd.
  rewrite (crawl_run _ _ _ _ _ Hparse).
  rewrite addAs_run in Hadd.
  destruct (request client outside validated _) as [result | e]; [discriminate |].
  simpl in Hadd. injection Hadd as <- <-.
  split; [apply rejection_isError | reflexivity].
Qed.

(** The run of [crawl] when [fetch] fails retryably in the calls before
    [n] and call [n] of the task settles as [outcome]. *)
Lemma crawl_ends_at (client : CrawlbaseClient) (outside : Outside)
    (random : nat -> float) (params : Value) (validated : CrawlbaseParameters)
    (searchParams : list (string * string)) (n : nat) :
  schemaParse params = Normal validated ->
  buildRequestParams client validated = Normal searchParams ->
  (n <= maxRetries (retryQueue client))%nat ->
  (forall i, (i < n)%nat ->
     exists e, fetch outside i (baseUrl client ++ "?" ++ serialize searchParams) = Throw e /\
               shouldRetry e = true) ->
  n = maxRetries (retryQueue client) \/
    failsRetryably (request client outside validated) n = false ->
  crawl client outside random params =
  (Normal
     match request client outside validated n with
     | Normal result => result
     | Throw e => failureResult outside (GetV (rejection e) "message")
     end,
   {| self := retryQueue client; calls := S n; draws := n;
      sleeps := backoffs (retryQueue client) random n |}).
Proof.
  intros Hparse Hb Hn Hbefore Hat.
  rewrite (crawl_run _ _ _ _ _ Hparse).
  rewrite (lastAttempt_eq (request client outside validated) 0
             (maxRetries (retryQueue client)) n); [reflexivity | lia | | exact Hat].
  intros i Hi. destruct (Hbefore i ltac:(lia)) as (e & Hf & Hs).
  apply failsRetryably_intro. exists e.
  split; [exact (request_fetch_throws _ _ _ _ _ _ Hb Hf) |].
  split; [exact Hs | exact (fetch_rejects outside _ _ _ Hf)].
Qed.



(** X14: without a usable token -- none in the parameters, and the one
    [getToken] looks at falsy -- no request goes out: whatever the network
    would answer, the task is called once, throws the Error of [getToken],
    which is not retried, and [crawl] resolves with a failure of status
    500 whose text is the message of that Error. *)
Theorem crawl_without_token (client : CrawlbaseClient) (outside : Outside)
    (random : nat -> float) (params : Value) (validated : CrawlbaseParameters) :
  schemaParse params = Normal validated ->
  param_token validated = None \/ param_token validated = Some EmptyString ->
  ToBoolean (VPrim (selectedToken client validated)) = false ->
  crawl client outside random params =
  (Normal {| result_success := false;
             result_data := None;
             result_error :=
               Some {| error_error :=
                         PStr (if existsb (fun key => ToBoolean (param validated key)) jsOnly
                               then "JavaScript token required for this request but not provided"
                               else "Normal token required but not provided");
                       error_status := 500;
                       error_pc_status := None;
                       error_original_status := None |};
             result_requestId := requestId outside;
             result_duration :=
               PrimFloat.sub (DateNow outside AtCatch) (DateNow outside AtStart) |},
   {| self := retryQueue client; calls := 1; draws := 0; sleeps := [] |}).
Proof.
  intros Hparse Htoken Hsel.
  set (msg := if existsb (fun key => ToBoolean (param validated key)) jsOnly
              then "JavaScript token required for this request but not provided"
              else "Normal token required but not provided").
  assert (Hb : buildRequestParams client validated = Throw (newError msg)).
  { unfold buildRequestParams.
    destruct Htoken as [-> | ->]; simpl; rewrite (getToken_throws _ _ Hsel); reflexivity. }
  assert (Hreq : forall i, request client outside validated i = Throw (newError msg))
    by (intros i; apply request_build_throws, Hb).
  rewrite (crawl_run _ _ _ _ _ Hparse).
  rewrite (lastAttempt_eq (request client outside validated) 0
             (maxRetries (retryQueue client)) 0).
  - rewrite Hreq. rewrite rejection_unfold. simpl instanceofError. cbv iota.
    rewrite message_newError. reflexivity.
  - lia.
  - intros i Hi. lia.
  - right. unfold failsRetryably. rewrite Hreq, shouldRetry_newError. apply andb_false_r.
Qed.

(** X15: when [fetch] fails in every call with an error that
    [shouldRetry] accepts (a network error carrying the code ECONNRESET,
    say), [crawl] makes [maxRetries + 1] requests with a backoff sleep
    between them and then resolves -- it does not reject -- with a failure
    of status 500 whose text is the message of the last error. *)
Theorem crawl_network_failure (client : CrawlbaseClient) (outside : Outside)
    (random : nat -> float) (params : Value) (validated : CrawlbaseParameters)
    (searchParams : list (string * string)) :
  schemaParse params = Normal validated ->
  buildRequestParams client validated = Normal searchParams ->
  (forall i, (i <= maxRetries (retryQueue client))%nat ->
     exists e, fetch outside i (baseUrl client ++ "?" ++ serialize searchParams) = Throw e /\
               shouldRetry e = true) ->
  exists e,
    fetch outside (maxRetries (retryQueue client))
      (baseUrl client ++ "?" ++ serialize searchParams) = Throw e /\
    crawl client outside random params =
    (Normal {| result_success := false;
               result_data := None;
               result_error :=
                 Some {| error_error :=
                           GetV (if instanceofError e then e else newError (ToString e))
                             "message";
                         error_status := 500;
                         error_pc_status := None;
                         error_original_status := None |};
               result_requestId := requestId outside;
               result_duration :=
                 PrimFloat.sub (DateNow outside AtCatch) (DateNow outside AtStart) |},
     {| self := retryQueue client;
        calls := S (maxRetries (retryQueue client));
        draws := maxRetries (retryQueue client);
        sleeps := backoffs (retryQueue client) random (maxRetries (retryQueue client)) |}).
Proof.
  intros Hparse Hb Hall.
  destruct (Hall (maxRetries (retryQueue client)) (Nat.le_refl _)) as (e & Hf & Hs).
  exists e. split; [exact Hf |].
  rewrite (crawl_ends_at client outside random params validated searchParams
             (maxRetries (retryQueue client)) Hparse Hb (Nat.le_refl _)).
  - rewrite (request_fetch_throws _ _ _ _ _ _ Hb Hf).
    rewrite (rejection_converted e (proj2 (completes_iff e) (fetch_rejects outside _ _ _ Hf))).
    reflexivity.
  - intros i Hi. apply Hall. lia.
  - left. reflexivity.
Qed.

(** ** The client: cookies *)















(** ** The extractor: trimming and cutting *)

Lemma trimStart_suffix (text : list N) :
  exists spaces, text = (spaces ++ trimStart text)%list.
Proof.
  induction text as [| u text [spaces IH]]; simpl.
  - exists []. reflexivity.
  - destruct (isWhiteSpace u).
    + exists (u :: spaces). simpl. rewrite <- IH. reflexivity.
    + exists []. reflexivity.
Qed.

Lemma trimStart_hd (text : list N) (u : N) :
  hd_error (trimStart text) = Some u -> isWhiteSpace u = false.
Proof.
  induction text as [| v text IH]; simpl; [discriminate |].
  destruct (isWhiteSpace v) eqn:Hv; [exact IH |].
  simpl. intros [= <-]. exact Hv.
Qed.

Lemma trimText_last (text : list N) (u : N) :
  hd_error (rev (trimText text)) = Some u -> isWhiteSpace u = false.
Proof. unfold trimText. rewrite rev_involutive. apply trimStart_hd. Qed.

Lemma trimText_hd (text : list N) (u : N) :
  hd_error (trimText text) = Some u -> isWhiteSpace u = false.
Proof.
  unfold trimText. intros H.
  destruct (trimStart_suffix (rev (trimStart text))) as [spaces Hs].
  destruct (rev (trimStart (rev (trimStart text)))) as [| v rest] eqn:Hr; [discriminate |].
  simpl in H. injection H as ->.
  apply (f_equal (@rev N)) in Hs. rewrite rev_involutive, rev_app_distr, Hr in Hs.
  apply (trimStart_hd text). rewrite Hs. reflexivity.
Qed.

(** [lastIndexFrom] gives [found] when the unit does not occur, and else
    the index of its last occurrence. *)
Lemma lastIndexFrom_spec (unit : N) (text : list N) (i found : Z) :
  (found < i)%Z ->
  (lastIndexFrom unit text i found = found /\ Forall (fun u => u <> unit) text) \/
  ((i <= lastIndexFrom unit text i found < i + Z.of_nat (length text))%Z /\
   nth_error text (Z.to_nat (lastIndexFrom unit text i found - i)) = Some unit /\
   Forall (fun u => u <> unit)
     (skipn (S (Z.to_nat (lastIndexFrom unit text i found - i))) text)).
Proof.
  revert i found. induction text as [| u text IH]; intros i found Hlt; simpl lastIndexFrom.
  - left. split; [reflexivity | constructor].
  - destruct (N.eqb_spec u unit) as [-> | Hne].
    + destruct (IH (i + 1)%Z i ltac:(lia)) as [[Hr Hall] | (Hr & Hn & Hall)].
      * right. rewrite Hr. rewrite Z.sub_diag. simpl.
        split; [lia |]. split; [reflexivity | exact Hall].
      * right. set (r := lastIndexFrom unit text (i + 1) i) in *.
        replace (Z.to_nat (r - i)) with (S (Z.to_nat (r - (i + 1)))) by lia.
        split; [simpl length; lia |]. split; [exact Hn | exact Hall].
    + destruct (IH (i + 1)%Z found ltac:(lia)) as [[Hr Hall] | (Hr & Hn & Hall)].
      * left. split; [exact Hr | constructor; assumption].
      * right. set (r := lastIndexFrom unit text (i + 1) found) in *.
        replace (Z.to_nat (r - i)) with (S (Z.to_nat (r - (i + 1)))) by lia.
        split; [simpl length; lia |]. split; [exact Hn | exact Hall].
Qed.

Lemma firstn_S_nth {A : Type} (l : list A) (n : nat) (x : A) :
  nth_error l n = Some x -> firstn (S n) l = (firstn n l ++ [x])%list.
Proof.
  revert n. induction l as [| a l IH]; intros [| n] H; simpl in H; try discriminate.
  - injection H as ->. reflexivity.
  - simpl. rewrite (IH n H). reflexivity.
Qed.

Lemma Forall_skipn_all {A : Type} (P : A -> Prop) (l : list A) (n : nat) :
  Forall P l -> Forall P (skipn n l).
Proof.
  revert l. induction n as [| n IH]; intros l H; [exact H |].
  destruct H as [| a l Ha Hl]; [constructor | apply IH, Hl].
Qed.

Lemma Forall_skipn_more {A : Type} (P : A -> Prop) (l : list A) (n m : nat) :
  (n <= m)%nat -> Forall P (skipn n l) -> Forall P (skipn m l).
Proof.
  intros Hnm H. replace m with ((m - n) + n)%nat by lia.
  rewrite <- skipn_skipn. apply Forall_skipn_all, H.
Qed.

(** The three ways [generateExcerpt] ends. *)
Lemma generateExcerpt_cases (markdown : list N) :
  ((length (plainText markdown) <= 200)%nat /\
   generateExcerpt markdown = plainText markdown) \/
  ((200 < length (plainText markdown))%nat /\
   exists k, (101 < k <= 200)%nat /\
     generateExcerpt markdown = (firstn (k - 1) (plainText markdown) ++ [fullStop])%list /\
     generateExcerpt markdown = firstn k (plainText markdown) /\
     Forall (fun u => u <> fullStop) (skipn k (firstn 200 (plainText markdown)))) \/
  ((200 < length (plainText markdown))%nat /\
   generateExcerpt markdown =
     (firstn 200 (plainText markdown) ++ [fullStop; fullStop; fullStop])%list /\
   Forall (fun u => u <> fullStop) (skipn 101 (firstn 200 (plainText markdown)))).
Proof.
  unfold generateExcerpt. cbv zeta.
  set (plain := plainText markdown).
  destruct (Nat.leb_spec (length plain) 200) as [Hle | Hgt]; [left; auto | right].
  assert (Hlen : length (firstn 200 plain) = 200%nat) by (rewrite length_firstn; lia).
  destruct (lastIndexFrom_spec fullStop (firstn 200 plain) 0 (-1) ltac:(lia))
    as [[Hr Hall] | (Hr & Hn & Hall)]; fold (lastIndexOf fullStop (firstn 200 plain)) in *.
  - right. rewrite Hr. simpl. split; [exact Hgt |]. split; [reflexivity |].
    apply (Forall_skipn_more _ _ 0); [lia | exact Hall].
  - set (r := lastIndexOf fullStop (firstn 200 plain)) in *.
    rewrite Z.sub_0_r in Hn, Hall. rewrite Hlen in Hr.
    destruct (Z.ltb_spec 100 r) as [Hbig | Hsmall].
    + left. split; [exact Hgt |]. exists (Z.to_nat (r + 1)).
      replace (Z.to_nat (r + 1)) with (S (Z.to_nat r)) by lia.
      split; [lia |].
      assert (Hcut : firstn (S (Z.to_nat r)) (firstn 200 plain) =
                     firstn (S (Z.to_nat r)) plain).
      { rewrite firstn_firstn. f_equal. lia. }
      split; [| split; [exact Hcut | exact Hall]].
      rewrite (firstn_S_nth _ _ _ Hn). simpl. rewrite Nat.sub_0_r.
      rewrite firstn_firstn. f_equal. f_equal. lia.
    + right. split; [exact Hgt |]. split; [reflexivity |].
      apply (Forall_skipn_more _ _ (S (Z.to_nat r))); [lia | exact Hall].
Qed.

Lemma generateExcerpt_at_most (markdown : list N) :
  (length (generateExcerpt markdown) <= 203)%nat.
Proof.
  destruct (generateExcerpt_cases markdown)
    as [[Hle ->] | [(Hgt & k & Hk & _ & -> & _) | (Hgt & -> & _)]].
  - lia.
  - rewrite length_firstn. lia.
  - rewrite length_app, length_firstn. cbn [length]. lia.
Qed.

(** X17: an excerpt is at most 203 code units long.  A plain text of at
    most 200 units is its own excerpt; a longer one gives an excerpt of at
    least 102 units. *)
Theorem generateExcerpt_length (markdown : list N) :
  (length (generateExcerpt markdown) <= 203)%nat /\
  ((length (plainText markdown) <= 200)%nat ->
   generateExcerpt markdown = plainText markdown) /\
  ((200 < length (plainText markdown))%nat ->
   (102 <= length (generateExcerpt markdown))%nat).
Proof.
  destruct (generateExcerpt_cases markdown)
    as [[Hle ->] | [(Hgt & k & Hk & _ & -> & _) | (Hgt & -> & _)]].
  - split; [lia |]. split; [reflexivity | lia].
  - rewrite length_firstn. split; [lia |]. split; [intros; exfalso; lia | lia].
  - rewrite length_app, length_firstn. cbn [length].
    split; [lia |]. split; [intros; exfalso; lia | lia].
Qed.

(** X18: a plain text of more than 200 units is cut in one of two ways,
    and the excerpt ends with a full stop in both.  If the first 200 units
    hold a full stop at an index above 100, the excerpt is the plain text
    up to and with the last such full stop; otherwise it is the first 200
    units followed by '...'. *)
Theorem generateExcerpt_cut (markdown : list N) :
  (200 < length (plainText markdown))%nat ->
  hd_error (rev (generateExcerpt markdown)) = Some fullStop /\
  ((exists k, (101 < k <= 200)%nat /\
      generateExcerpt markdown = firstn k (plainText markdown) /\
      Forall (fun u => u <> fullStop) (skipn k (firstn 200 (plainText markdown)))) \/
   (generateExcerpt markdown =
      (firstn 200 (plainText markdown) ++ [fullStop; fullStop; fullStop])%list /\
    Forall (fun u => u <> fullStop) (skipn 101 (firstn 200 (plainText markdown))))).
Proof.
  intros Hlong.
  destruct (generateExcerpt_cases markdown)
    as [[Hle _] | [(_ & k & Hk & Hend & Hcut & Hall) | (_ & Hcut & Hall)]]; [lia | |].
  - split; [rewrite Hend, rev_app_distr; reflexivity |].
    left. exists k. auto.
  - split; [rewrite Hcut, rev_app_distr; reflexivity |].
    right. auto.
Qed.

Lemma hd_error_firstn {A : Type} (l : list A) (n : nat) :
  (1 <= n)%nat -> hd_error (firstn n l) = hd_error l.
Proof. intros Hn. destruct n as [| n]; [lia |]. destruct l; reflexivity. Qed.

(** X19: an excerpt neither starts nor ends with white space. *)
Theorem generateExcerpt_trimmed (markdown : list N) (u : N) :
  (hd_error (generateExcerpt markdown) = Some u -> isWhiteSpace u = false) /\
  (hd_error (rev (generateExcerpt markdown)) = Some u -> isWhiteSpace u = false).
Proof.
  destruct (generateExcerpt_cases markdown)
    as [[Hle ->] | [(Hgt & k & Hk & Hend & Hcut & _) | (Hgt & Hcut & _)]].
  - split; [apply trimText_hd | apply trimText_last].
  - split.
    + rewrite Hcut, hd_error_firstn by lia. apply trimText_hd.
    + rewrite Hend, rev_app_distr. simpl. intros [= <-]. reflexivity.
  - split.
    + rewrite Hcut.
      destruct (firstn 200 (plainText markdown)) as [| v rest] eqn:Hf.
      * apply (f_equal (@length N)) in Hf. rewrite length_firstn in Hf. cbn [length] in Hf. lia.
      * simpl. intros [= <-]. apply (trimText_hd
          (replaceAll "`([^`]+)`" "$1"
             (replaceAll "```[\s\S]*?```" EmptyString
                (replaceAll "\[([^\]]+)\]\([^)]+\)" "$1"
                   (replaceAll "\*([^*]+)\*" "$1"
                      (replaceAll "\*\*([^*]+)\*\*" "$1"
                         (replaceAll "#+\s+" EmptyString markdown))))))).
        fold (plainText markdown). rewrite <- (hd_error_firstn _ 200) by lia.
        rewrite Hf. reflexivity.
    + rewrite Hcut, rev_app_distr. simpl. intros [= <-]. reflexivity.
Qed.

(** ** The extractor: title and result *)

Lemma nonEmpty_Some (text title : list N) :
  nonEmpty text = Some title -> title = text /\ text <> [].
Proof. destruct text; simpl; [discriminate |]. intros [= <-]. split; [reflexivity | discriminate]. Qed.

(** A title found is the trimmed text of an element, and not empty. *)
Lemma extractTitle_trimmed (root : Root) (title : list N) :
  extractTitle root = Some title ->
  title <> [] /\ exists text, title = trimText text.
Proof.
  unfold extractTitle. intros H.
  assert (Hne : forall text t, nonEmpty (trimText text) = Some t ->
                  t <> [] /\ exists text', t = trimText text').
  { intros text t Ht. apply nonEmpty_Some in Ht as [-> Hn]. split; [exact Hn | eauto]. }
  destruct (root "title") as [titleElement |].
  - destruct (nonEmpty (trimText (element_text titleElement))) eqn:H1.
    + injection H as <-. exact (Hne _ _ H1).
    + destruct (root "h1") as [h1Element |].
      * destruct (nonEmpty (trimText (element_text h1Element))) eqn:H2.
        -- injection H as <-. exact (Hne _ _ H2).
        -- destruct (root _) as [metaTitle |]; [| discriminate].
           destruct (element_attribute metaTitle "content"); [| discriminate].
           exact (Hne _ _ H).
      * destruct (root _) as [metaTitle |]; [| discriminate].
        destruct (element_attribute metaTitle "content"); [| discriminate].
        exact (Hne _ _ H).
  - destruct (root "h1") as [h1Element |].
    + destruct (nonEmpty (trimText (element_text h1Element))) eqn:H2.
      * injection H as <-. exact (Hne _ _ H2).
      * destruct (root _) as [metaTitle |]; [| discriminate].
        destruct (element_attribute metaTitle "content"); [| discriminate].
        exact (Hne _ _ H).
    + destruct (root _) as [metaTitle |]; [| discriminate].
      destruct (element_attribute metaTitle "content"); [| discriminate].
      exact (Hne _ _ H).
Qed.

(** X20: a result of [extractMarkdown] has a title that is not empty and
    neither starts nor ends with white space (the trimmed text found by
    [extractTitle], or 'Untitled'); its [length] is the length of its
    content, its excerpt is the excerpt of its content and at most 203
    units long, and its url is the one passed in. *)
Theorem extractMarkdown_result (html : list N) (url : Value) (result : MarkdownResult) :
  extractMarkdown html url = Normal result ->
  markdown_title result <> [] /\
  (forall u, hd_error (markdown_title result) = Some u -> isWhiteSpace u = false) /\
  (forall u, hd_error (rev (markdown_title result)) = Some u -> isWhiteSpace u = false) /\
  (exists root,
     parseHTML html = Normal root /\
     markdown_title result =
       match extractTitle root with Some title => title | None => unitsOf "Untitled" end) /\
  markdown_length result = length (markdown_content result) /\
  markdown_excerpt result = generateExcerpt (markdown_content result) /\
  (length (markdown_excerpt result) <= 203)%nat /\
  markdown_url result = url.
Proof.
  unfold extractMarkdown. intros H.
  destruct (parseHTML html) as [root | e]; [| discriminate].
  destruct (cleanContent html) as [cleaned | e]; [| discriminate].
  destruct (turndown cleaned) as [markdown | e]; [| discriminate].
  injection H as <-. simpl.
  assert (Htitle : forall t, t = match extractTitle root with
                                 | Some title => title
                                 | None => unitsOf "Untitled"
                                 end ->
            t <> [] /\
            (forall u, hd_error t = Some u -> isWhiteSpace u = false) /\
            (forall u, hd_error (rev t) = Some u -> isWhiteSpace u = false)).
  { intros t ->. destruct (extractTitle root) as [title |] eqn:Ht.
    - destruct (extractTitle_trimmed root title Ht) as [Hne [text ->]].
      split; [exact Hne |]. split; intros u; [apply trimText_hd | apply trimText_last].
    - split; [discriminate |].
      split; intros u; vm_compute; intros [= <-]; reflexivity. }
  destruct (Htitle _ eq_refl) as (H1 & H2 & H3).
  split; [exact H1 |]. split; [exact H2 |]. split; [exact H3 |].
  split; [exists root; split; reflexivity |].
  split; [reflexivity |]. split; [reflexivity |].
  split; [| reflexivity].
  exact (generateExcerpt_at_most markdown).
Qed.

(** X21: [extractMarkdown] throws nothing but an Error it has made:
    whatever the parser, the clean-up or Turndown throws is replaced by an
    Error whose message is 'Failed to extract markdown: ' followed by the
    message of what was thrown if that is an Error, and by 'Unknown error'
    if it is not. *)
Theorem extractMarkdown_throws (html : list N) (url : Value) (e : Value) :
  extractMarkdown html url = Throw e ->
  instanceofError e = true /\
  exists cause,
    (parseHTML html = Throw cause \/
     cleanContent html = Throw cause \/
     exists cleaned, cleanContent html = Normal cleaned /\ turndown cleaned = Throw cause) /\
    e = newError ("Failed to extract markdown: " ++
                  if instanceofError cause
                  then ToString (VPrim (GetV cause "message"))
                  else "Unknown error").
Proof.
  unfold extractMarkdown. intros H.
  destruct (parseHTML html) as [root | cause] eqn:Hp.
  - destruct (cleanContent html) as [cleaned | cause] eqn:Hc.
    + destruct (turndown cleaned) as [markdown | cause] eqn:Ht; [discriminate |].
      injection H as <-. split; [reflexivity |]. exists cause. split; [| reflexivity].
      right. right. exists cleaned. auto.
    + injection H as <-. split; [reflexivity |]. exists cause. auto.
  - injection H as <-. split; [reflexivity |]. exists cause. auto.
Qed.

End Conversions.

(** ** The constructor *)

(** C6 (as the code has it): the constructor takes no configuration.
    Whatever arguments it is given, the queue is built with concurrency 20,
    interval 1000, intervalCap 20, maxRetries 3 and baseDelay 1000 -- the
    values the specification lists as defaults -- and no call of [add]
    changes them. *)
Theorem constructor_fixed (args : list Value) :
  constructor args =
    {| queue := {| concurrency := 20; interval := 1000; intervalCap := 20 |};
       maxRetries := 3;
       baseDelay := 1000%float |} /\
  (forall StringToNumber NumberToString fn random,
     self (snd (add StringToNumber NumberToString fn random (start (constructor args)))) =
     constructor args).
Proof.
  split; [reflexivity |].
  intros StringToNumber NumberToString fn random.
  exact (add_keeps_queue StringToNumber NumberToString fn random (start (constructor args))).
Qed.

(** ** The backoff delay, in exact arithmetic *)

Local Open Scope Q_scope.

Lemma pow2_pos (k : nat) : 0 < 2 ^ Z.of_nat k.
Proof. apply Qpower_0_lt. reflexivity. Qed.

Lemma pow2_succ (k : nat) : 2 ^ Z.of_nat (S k) == 2 * 2 ^ Z.of_nat k.
Proof.
  rewrite Nat2Z.inj_succ. unfold Z.succ.
  rewrite Qpower_plus by discriminate. simpl. ring.
Qed.

(** Without rounding the delay is
    [baseDelay * 2^k + r * 0.1 * baseDelay * 2^k] and lies in
    [baseDelay * 2^k, baseDelay * 2^k * 1.1). *)
Lemma exact_interval (baseDelay r : Q) (k : nat) :
  0 < baseDelay -> 0 <= r -> r < 1 ->
  calculateDelay (A := exact) baseDelay r k ==
    baseDelay * 2 ^ Z.of_nat k + r * (1 # 10) * (baseDelay * 2 ^ Z.of_nat k) /\
  baseDelay * 2 ^ Z.of_nat k <= calculateDelay (A := exact) baseDelay r k /\
  calculateDelay (A := exact) baseDelay r k < baseDelay * 2 ^ Z.of_nat k * (11 # 10).
Proof.
  intros Hb Hr0 Hr1.
  unfold calculateDelay, num_pow2, num_mul, num_add, num_tenth, exact.
  pose proof (pow2_pos k) as Hp.
  set (p := 2 ^ Z.of_nat k) in *.
  assert (HE : 0 < baseDelay * p) by (apply Qmult_lt_0_compat; assumption).
  set (E := baseDelay * p) in *.
  split; [reflexivity |].
  split; nra.
Qed.

(** Without rounding, the delay of attempt [k] is below
    [baseDelay * 2^k * 1.1], which is below [baseDelay * 2^(k+1)], which is
    at most the delay of attempt [k + 1]. *)
Lemma exact_increasing (baseDelay r r' : Q) (k : nat) :
  0 < baseDelay -> 0 <= r -> r < 1 -> 0 <= r' -> r' < 1 ->
  calculateDelay (A := exact) baseDelay r k < baseDelay * 2 ^ Z.of_nat k * (11 # 10) /\
  baseDelay * 2 ^ Z.of_nat k * (11 # 10) < baseDelay * 2 ^ Z.of_nat (S k) /\
  baseDelay * 2 ^ Z.of_nat (S k) <= calculateDelay (A := exact) baseDelay r' (S k) /\
  calculateDelay (A := exact) baseDelay r k < calculateDelay (A := exact) baseDelay r' (S k).
Proof.
  intros Hb Hr0 Hr1 Hr0' Hr1'.
  unfold calculateDelay, num_pow2, num_mul, num_add, num_tenth, exact.
  pose proof (pow2_pos k) as Hp.
  rewrite (pow2_succ k).
  set (p := 2 ^ Z.of_nat k) in *.
  assert (HE : 0 < baseDelay * p) by (apply Qmult_lt_0_compat; assumption).
  assert (EE : baseDelay * (2 * p) == 2 * (baseDelay * p)) by ring.
  rewrite EE.
  set (E := baseDelay * p) in *.
  split; [nra | split; [nra | split; nra]].
Qed.

Local Close Scope Q_scope.

(** ** Rounding to a double is monotone *)

Section Rounding.

Local Notation "'valid' x" := (SpecFloat.valid_binary prec emax x = true)
  (at level 10, x at level 9).

Local Open Scope Z_scope.

(** *** Digits of a mantissa *)

(** A mantissa of [d] binary digits lies in [2^(d-1), 2^d). *)
Lemma digits2_pos_bounds (m : positive) :
  2 ^ (Z.pos (digits2_pos m) - 1) <= Z.pos m < 2 ^ Z.pos (digits2_pos m).
Proof.
  induction m as [m IH | m IH |]; simpl digits2_pos.
  - rewrite Pos2Z.inj_succ.
    replace (Z.succ (Z.pos (digits2_pos m)) - 1) with (Z.succ (Z.pos (digits2_pos m) - 1)) by lia.
    rewrite !Z.pow_succ_r by lia. lia.
  - rewrite Pos2Z.inj_succ.
    replace (Z.succ (Z.pos (digits2_pos m)) - 1) with (Z.succ (Z.pos (digits2_pos m) - 1)) by lia.
    rewrite !Z.pow_succ_r by lia. lia.
  - simpl. lia.
Qed.

(** [SpecFloat.iter_pos] iterates [Pos.to_nat p] times. *)
Lemma iter_pos_nat {A : Type} (f : A -> A) (p : positive) (x : A) :
  SpecFloat.iter_pos f p x = Nat.iter (Pos.to_nat p) f x.
Proof.
  revert x. induction p as [p IH | p IH |]; intros x; simpl SpecFloat.iter_pos.
  - rewrite !IH.
    replace (Pos.to_nat p~1) with (Pos.to_nat p + (Pos.to_nat p + 1))%nat by lia.
    rewrite !Nat.iter_add. reflexivity.
  - rewrite !IH.
    replace (Pos.to_nat p~0) with (Pos.to_nat p + Pos.to_nat p)%nat by lia.
    rewrite Nat.iter_add. reflexivity.
  - reflexivity.
Qed.

Local Open Scope Q_scope.

(** *** Rounding half to even *)

Lemma roundHalfEven_comp (x y : Q) : x == y -> roundHalfEven x = roundHalfEven y.
Proof.
  intros H. unfold roundHalfEven. rewrite (Qfloor_comp x y H).
  assert (Hc : Qcompare (x - inject_Z (Qfloor y)) (1 # 2) =
               Qcompare (y - inject_Z (Qfloor y)) (1 # 2))
    by (apply Qcompare_comp; [rewrite H; reflexivity | reflexivity]).
  rewrite Hc. reflexivity.
Qed.

Lemma roundHalfEven_floor (x : Q) : (Qfloor x <= roundHalfEven x <= Qfloor x + 1)%Z.
Proof.
  unfold roundHalfEven.
  destruct (Qcompare (x - inject_Z (Qfloor x)) (1 # 2)); [destruct (Z.even _) | |]; lia.
Qed.

Lemma roundHalfEven_inject (z : Z) : roundHalfEven (inject_Z z) = z.
Proof.
  unfold roundHalfEven. rewrite Qfloor_Z.
  destruct (Qcompare_spec (inject_Z z - inject_Z z) (1 # 2)) as [H | H | H];
    [exfalso; lra | reflexivity | exfalso; lra].
Qed.

Lemma roundHalfEven_mono (x y : Q) : x <= y -> (roundHalfEven x <= roundHalfEven y)%Z.
Proof.
  intros Hxy.
  pose proof (Qfloor_resp_le x y Hxy) as Hf.
  destruct (Z.eq_dec (Qfloor x) (Qfloor y)) as [Heq | Hne].
  - unfold roundHalfEven. rewrite Heq.
    destruct (Qcompare_spec (x - inject_Z (Qfloor y)) (1 # 2)) as [Hx | Hx | Hx];
    destruct (Qcompare_spec (y - inject_Z (Qfloor y)) (1 # 2)) as [Hy | Hy | Hy];
      try destruct (Z.even (Qfloor y)); try lia; exfalso; lra.
  - pose proof (roundHalfEven_floor x). pose proof (roundHalfEven_floor y). lia.
Qed.

Lemma roundHalfEven_ge (x : Q) (z : Z) : inject_Z z <= x -> (z <= roundHalfEven x)%Z.
Proof. intros H. rewrite <- (roundHalfEven_inject z). apply roundHalfEven_mono, H. Qed.

Lemma roundHalfEven_le (x : Q) (z : Z) : x <= inject_Z z -> (roundHalfEven x <= z)%Z.
Proof. intros H. rewrite <- (roundHalfEven_inject z). apply roundHalfEven_mono, H. Qed.

(** *** Powers of two and dyadic values *)

Lemma twoTo_pos (e : Z) : 0 < twoTo e.
Proof. apply Qpower_0_lt. reflexivity. Qed.

Lemma twoTo_add (a b : Z) : twoTo (a + b) == twoTo a * twoTo b.
Proof. unfold twoTo. apply Qpower_plus. discriminate. Qed.

Lemma twoTo_Z (e : Z) : (0 <= e)%Z -> twoTo e == inject_Z (2 ^ e).
Proof. intros H. unfold twoTo. rewrite Zpower_Qpower by assumption. reflexivity. Qed.

Lemma twoTo_le (a b : Z) : (a <= b)%Z -> twoTo a <= twoTo b.
Proof. intros H. apply Qpower_le_compat_l; [assumption | discriminate]. Qed.

Lemma twoTo_0 : twoTo 0 == 1.
Proof. reflexivity. Qed.

Lemma dyadic_shift (M e s : Z) : dyadic M (e + s) == dyadic M e * twoTo s.
Proof. unfold dyadic. rewrite twoTo_add. ring. Qed.

Lemma dyadic_le_shift (M1 e1 M2 e2 s : Z) :
  dyadic M1 e1 <= dyadic M2 e2 -> dyadic M1 (e1 + s) <= dyadic M2 (e2 + s).
Proof.
  intros H. rewrite !dyadic_shift. pose proof (twoTo_pos s). nra.
Qed.

(** A positive dyadic lies in the binade its digits and exponent name. *)
Lemma dyadic_bounds (M : positive) (e : Z) :
  twoTo (Z.pos (digits2_pos M) - 1 + e) <= dyadic (Z.pos M) e < twoTo (Z.pos (digits2_pos M) + e).
Proof.
  pose proof (digits2_pos_bounds M) as [Hl Hu].
  unfold dyadic. rewrite !twoTo_add.
  pose proof (twoTo_pos e) as He.
  assert (Hd : (0 <= Z.pos (digits2_pos M) - 1)%Z) by lia.
  rewrite (twoTo_Z _ Hd), (twoTo_Z (Z.pos (digits2_pos M))) by lia.
  assert (H1 : inject_Z (2 ^ (Z.pos (digits2_pos M) - 1)) <= inject_Z (Z.pos M))
    by (rewrite <- Zle_Qle; exact Hl).
  assert (H2 : inject_Z (Z.pos M) < inject_Z (2 ^ Z.pos (digits2_pos M)))
    by (rewrite <- Zlt_Qlt; exact Hu).
  split; nra.
Qed.

(** A larger value has no smaller magnitude. *)
Lemma mag_mono (M1 M2 : positive) (e1 e2 : Z) :
  dyadic (Z.pos M1) e1 <= dyadic (Z.pos M2) e2 ->
  (Z.pos (digits2_pos M1) + e1 <= Z.pos (digits2_pos M2) + e2)%Z.
Proof.
  intros H.
  pose proof (dyadic_bounds M1 e1) as [H1 _].
  pose proof (dyadic_bounds M2 e2) as [_ H2].
  assert (Hlt : twoTo (Z.pos (digits2_pos M1) - 1 + e1) <
                twoTo (Z.pos (digits2_pos M2) + e2)) by lra.
  apply Qpower_lt_compat_l_inv in Hlt; [lia | reflexivity].
Qed.

Local Open Scope Z_scope.

(** *** Shifting right with round and sticky bits *)

Lemma shr_1_nonneg (m : Z) (r s : bool) :
  0 <= m ->
  shr_1 {| shr_m := m; shr_r := r; shr_s := s |} =
  {| shr_m := Z.div2 m; shr_r := Z.odd m; shr_s := r || s |}.
Proof.
  intros Hm. destruct m as [| p | p]; [reflexivity | | lia].
  destruct p; reflexivity.
Qed.

(** [k] right shifts of [M]: the quotient, and where the remainder lies. *)
Lemma shr_iter (M : Z) (k : nat) :
  0 <= M ->
  Nat.iter k shr_1 {| shr_m := M; shr_r := false; shr_s := false |} =
  let rem := M mod 2 ^ Z.of_nat k in
  {| shr_m := M / 2 ^ Z.of_nat k;
     shr_r := 2 ^ Z.of_nat k <=? 2 * rem;
     shr_s := negb ((rem =? 0) || (2 * rem =? 2 ^ Z.of_nat k)) |}.
Proof.
  intros HM. induction k as [| k IH].
  - simpl. rewrite Z.div_1_r, Z.mod_1_r. reflexivity.
  - rewrite Nat.iter_succ, IH. clear IH. cbv zeta.
    assert (Hp : 0 < 2 ^ Z.of_nat k) by (apply Z.pow_pos_nonneg; lia).
    rewrite shr_1_nonneg by (apply Z.div_pos; lia).
    rewrite Nat2Z.inj_succ, Z.pow_succ_r by lia.
    set (P := 2 ^ Z.of_nat k) in *.
    pose proof (Z.mod_pos_bound M P Hp) as Hrem.
    pose proof (Z.div_mod M P ltac:(lia)) as HMd.
    set (q := M / P) in *. set (rem := M mod P) in *.
    assert (Hq : 0 <= q) by (apply Z.div_pos; lia).
    pose proof (Z.div_mod q 2 ltac:(lia)) as Hqd.
    pose proof (Z.mod_pos_bound q 2 ltac:(lia)) as Hq2.
    assert (Hdiv : M / (2 * P) = q / 2).
    { symmetry. apply (Z.div_unique M (2 * P) (q / 2) (rem + P * (q mod 2))); nia. }
    assert (Hmod : M mod (2 * P) = rem + P * (q mod 2)).
    { symmetry. apply (Z.mod_unique M (2 * P) (q / 2) (rem + P * (q mod 2))); nia. }
    rewrite Hdiv, Hmod, Z.div2_div.
    assert (Hodd : Z.odd q = (q mod 2 =? 1)).
    { rewrite Zmod_odd. destruct (Z.odd q); reflexivity. }
    rewrite Hodd.
    assert (Hb : q mod 2 = 0 \/ q mod 2 = 1) by lia.
    destruct Hb as [Hb | Hb]; rewrite Hb; rewrite ?Z.mul_0_r, ?Z.mul_1_r, ?Z.add_0_r;
      f_equal;
      destruct (Z.leb_spec P (2 * rem)); destruct (Z.eqb_spec rem 0);
      destruct (Z.eqb_spec (2 * rem) P);
      try destruct (Z.leb_spec (2 * P) (2 * rem));
      try destruct (Z.leb_spec (2 * P) (2 * (rem + P)));
      try destruct (Z.eqb_spec (rem + P) 0);
      try destruct (Z.eqb_spec (2 * rem) (2 * P));
      try destruct (Z.eqb_spec (2 * (rem + P)) (2 * P)); simpl; try reflexivity; lia.
Qed.

Local Open Scope Q_scope.

Lemma dyadic_neg (M k : Z) : (0 <= k)%Z -> dyadic M (- k) == inject_Z M / inject_Z (2 ^ k).
Proof.
  intros Hk. unfold dyadic, twoTo, Qdiv.
  apply Qmult_comp; [reflexivity |].
  rewrite Qpower_opp. apply Qinv_comp. symmetry. exact (Zpower_Qpower 2 k Hk).
Qed.

(** Rounding the quotient by a power of two, in integer terms. *)
Lemma roundHalfEven_div (M k : Z) :
  (0 <= k)%Z ->
  roundHalfEven (dyadic M (- k)) =
  match (2 * (M mod 2 ^ k) ?= 2 ^ k)%Z with
  | Lt => (M / 2 ^ k)%Z
  | Eq => if Z.even (M / 2 ^ k) then (M / 2 ^ k)%Z else (M / 2 ^ k + 1)%Z
  | Gt => (M / 2 ^ k + 1)%Z
  end.
Proof.
  intros Hk.
  assert (Hp : (0 < 2 ^ k)%Z) by (apply Z.pow_pos_nonneg; lia).
  destruct (2 ^ k)%Z as [| p | p] eqn:HP; try lia.
  assert (Hx : dyadic M (- k) == M # p).
  { rewrite (dyadic_neg M k Hk), HP. symmetry. apply Qmake_Qdiv. }
  rewrite (roundHalfEven_comp _ _ Hx). unfold roundHalfEven.
  change (Qfloor (M # p)) with (M / Z.pos p)%Z.
  pose proof (Z.div_mod M (Z.pos p) ltac:(lia)) as HMd.
  set (q := (M / Z.pos p)%Z) in *. set (rem := (M mod Z.pos p)%Z) in *.
  assert (Hc : Qcompare ((M # p) - inject_Z q) (1 # 2) = (2 * rem ?= Z.pos p)%Z).
  { unfold Qcompare, Qminus, Qplus, Qopp, inject_Z. simpl Qnum. simpl Qden.
    f_equal; lia. }
  rewrite Hc. reflexivity.
Qed.

(** [round_nearest_even] after [k] shifts is [roundHalfEven] of the quotient. *)
Lemma shr_round (M : Z) (k : nat) :
  (0 <= M)%Z ->
  let mrs := Nat.iter k shr_1 {| shr_m := M; shr_r := false; shr_s := false |} in
  round_nearest_even (shr_m mrs) (loc_of_shr_record mrs) = roundHalfEven (dyadic M (- Z.of_nat k)).
Proof.
  intros HM. cbv zeta. rewrite shr_iter by assumption. cbv zeta.
  rewrite roundHalfEven_div by lia.
  assert (Hp : (0 < 2 ^ Z.of_nat k)%Z) by (apply Z.pow_pos_nonneg; lia).
  set (P := (2 ^ Z.of_nat k)%Z) in *.
  pose proof (Z.mod_pos_bound M P Hp) as Hrem.
  set (q := (M / P)%Z). set (rem := (M mod P)%Z) in *.
  unfold loc_of_shr_record, round_nearest_even. simpl shr_m. 
  destruct (Z.compare_spec (2 * rem) P) as [H | H | H];
    destruct (Z.leb_spec P (2 * rem)); destruct (Z.eqb_spec rem 0);
    destruct (Z.eqb_spec (2 * rem) P); simpl; try reflexivity; try lia.
Qed.

Local Open Scope Z_scope.

(** *** What [binary_round] computes *)

Lemma roundExponent_eq (M : positive) (e : Z) :
  roundExponent M e = Z.max (Z.pos (digits2_pos M) + e - 53) (-1074).
Proof. reflexivity. Qed.

Lemma iter_xO_dyadic (M d : positive) :
  Z.pos (Pos.iter xO M d) = Z.pos M * 2 ^ Z.pos d.
Proof.
  induction d as [| d IH] using Pos.peano_ind.
  - simpl. lia.
  - rewrite Pos.iter_succ, Pos2Z.inj_xO, IH, Pos2Z.inj_succ, Z.pow_succ_r by lia. lia.
Qed.

Lemma iter_xO_digits (M d : positive) :
  digits2_pos (Pos.iter xO M d) = (digits2_pos M + d)%positive.
Proof.
  induction d as [| d IH] using Pos.peano_ind.
  - simpl. lia.
  - rewrite Pos.iter_succ. simpl digits2_pos. rewrite IH. lia.
Qed.

Lemma digits_le_bound (M : positive) (k : Z) :
  Z.pos (digits2_pos M) <= k -> Z.pos M < 2 ^ k.
Proof.
  intros H. pose proof (digits2_pos_bounds M) as [_ Hu].
  eapply Z.lt_le_trans; [exact Hu |]. apply Z.pow_le_mono_r; lia.
Qed.

Lemma digits_of_bound (M : positive) (k : Z) :
  Z.pos M < 2 ^ k -> Z.pos (digits2_pos M) <= k.
Proof.
  intros H. pose proof (digits2_pos_bounds M) as [Hl _].
  destruct (Z.le_gt_cases (Z.pos (digits2_pos M)) k) as [Hle | Hgt]; [exact Hle |].
  exfalso. assert (2 ^ k <= 2 ^ (Z.pos (digits2_pos M) - 1)) by (apply Z.pow_le_mono_r; lia).
  lia.
Qed.

(** Second half of [binary_round_aux]: renormalise and check the range. *)
Lemma round_finish (m t : Z) :
  0 <= m <= 2 ^ 53 -> -1074 <= t ->
  (let '(mrs, e) := shr_fexp prec emax m t loc_Exact in
   match shr_m mrs with
   | Z0 => S754_zero false
   | Zpos p => if e <=? emax - prec then S754_finite false p e else S754_infinity false
   | Zneg _ => S754_nan
   end) = assemble m t.
Proof.
  intros Hm Ht. unfold shr_fexp, fexp, emin, prec, emax. simpl shr_record_of_loc.
  destruct m as [| p | p]; [| | lia].
  - simpl Zdigits2. unfold shr.
    destruct (Z.max (0 + t - 53) (3 - 1024 - 53) - t) eqn:Hn; try lia; reflexivity.
  - simpl Zdigits2. unfold assemble.
    destruct (Z.eqb_spec (Z.pos p) (2 ^ 53)) as [Heq | Hne].
    + injection Heq as ->.
      match goal with
      | |- context [shr _ _ ?n] =>
          assert (Hn : n = 1) by (simpl digits2_pos; lia); rewrite Hn
      end.
      reflexivity.
    + assert (Hd : Z.pos (digits2_pos p) <= 53) by (apply digits_of_bound; lia).
      unfold shr.
      destruct (Z.max (Z.pos (digits2_pos p) + t - 53) (3 - 1024 - 53) - t) eqn:Hn; try lia;
        reflexivity.
Qed.

(** First half of [binary_round_aux]: shift to the rounding exponent and
    round. *)
Lemma round_start (mz : positive) (ez : Z) :
  ez <= roundExponent mz ez ->
  exists mrs,
    shr_fexp prec emax (Z.pos mz) ez loc_Exact = (mrs, roundExponent mz ez) /\
    round_nearest_even (shr_m mrs) (loc_of_shr_record mrs) =
    roundHalfEven (dyadic (Z.pos mz) (ez - roundExponent mz ez)).
Proof.
  intros Hle. unfold shr_fexp. simpl Zdigits2. fold (roundExponent mz ez).
  simpl shr_record_of_loc. unfold shr.
  destruct (roundExponent mz ez - ez) as [| p | p] eqn:Hn; [| | lia].
  - eexists. split; [f_equal; lia |].
    simpl. replace (ez - roundExponent mz ez) with 0 by lia.
    rewrite (roundHalfEven_comp _ (inject_Z (Z.pos mz)));
      [rewrite roundHalfEven_inject; reflexivity |].
    unfold dyadic. rewrite twoTo_0. ring.
  - eexists. split; [f_equal; lia |].
    rewrite iter_pos_nat.
    rewrite (shr_round (Z.pos mz) (Pos.to_nat p)) by lia.
    rewrite positive_nat_Z. f_equal. f_equal. lia.
Qed.

Lemma roundMantissa_bounds (M : positive) (e : Z) : 0 <= roundMantissa M e <= 2 ^ 53.
Proof.
  unfold roundMantissa. split.
  - apply roundHalfEven_ge. unfold dyadic. apply Qmult_le_0_compat.
    + unfold Qle. simpl. lia.
    + apply Qlt_le_weak, twoTo_pos.
  - apply roundHalfEven_le.
    pose proof (dyadic_bounds M (e - roundExponent M e)) as [_ Hu].
    assert (Hp : (twoTo (Z.pos (digits2_pos M) + (e - roundExponent M e)) <= twoTo 53)%Q)
      by (apply twoTo_le; rewrite roundExponent_eq; lia).
    rewrite (twoTo_Z 53) in Hp by lia. apply Qlt_le_weak. eapply Qlt_le_trans; eassumption.
Qed.

Lemma roundExponent_min (M : positive) (e : Z) : -1074 <= roundExponent M e.
Proof. rewrite roundExponent_eq. lia. Qed.

Lemma binary_round_aux_assemble (mz : positive) (ez : Z) :
  ez <= roundExponent mz ez ->
  binary_round_aux prec emax false (Z.pos mz) ez loc_Exact =
  assemble (roundMantissa mz ez) (roundExponent mz ez).
Proof.
  intros Hle. unfold binary_round_aux.
  destruct (round_start mz ez Hle) as (mrs & -> & ->).
  apply (round_finish (roundMantissa mz ez) (roundExponent mz ez));
    [apply roundMantissa_bounds | apply roundExponent_min].
Qed.

(** [binary_round]: the float nearest to [M * 2^e]. *)
Lemma binary_round_assemble (M : positive) (e : Z) :
  binary_round prec emax false M e = assemble (roundMantissa M e) (roundExponent M e).
Proof.
  unfold binary_round, shl_align. fold (roundExponent M e).
  destruct (roundExponent M e - e) as [| d | d] eqn:Hn.
  - apply binary_round_aux_assemble. lia.
  - apply binary_round_aux_assemble. lia.
  - assert (Ht : roundExponent (Pos.iter xO M d) (roundExponent M e) = roundExponent M e).
    { unfold roundExponent at 1. rewrite iter_xO_digits, Pos2Z.inj_add.
      unfold roundExponent. f_equal. fold (roundExponent M e). lia. }
    rewrite binary_round_aux_assemble by lia.
    rewrite Ht. f_equal. unfold roundMantissa. rewrite Ht. apply roundHalfEven_comp.
    unfold dyadic. rewrite iter_xO_dyadic, inject_Z_mult.
    replace (roundExponent M e - roundExponent M e) with 0 by lia.
    replace (e - roundExponent M e) with (Z.pos d) by lia.
    rewrite twoTo_0, (twoTo_Z (Z.pos d)) by lia. ring.
Qed.

Local Open Scope Z_scope.

(** *** Monotonicity *)

(** The comparison of two positive finite floats is lexicographic. *)
Lemma SFleb_finite (m1 m2 : positive) (e1 e2 : Z) :
  SFleb (S754_finite false m1 e1) (S754_finite false m2 e2) =
  (e1 <? e2) || ((e1 =? e2) && (Z.pos m1 <=? Z.pos m2)).
Proof.
  unfold SFleb, SFcompare.
  destruct (Z.compare_spec e1 e2) as [-> | H | H].
  - rewrite Z.ltb_irrefl, Z.eqb_refl. simpl.
    unfold Z.leb. simpl Z.compare.
    change (Pos.compare_cont Eq m1 m2) with (Pos.compare m1 m2).
    destruct (Pos.compare m1 m2); reflexivity.
  - destruct (Z.ltb_spec e1 e2); [reflexivity | lia].
  - destruct (Z.ltb_spec e1 e2); [lia |]. destruct (Z.eqb_spec e1 e2); [lia | reflexivity].
Qed.

Lemma assemble_mono_same (m1 m2 t : Z) :
  0 <= m1 -> m1 <= m2 -> m2 <= 2 ^ 53 ->
  SFleb (assemble m1 t) (assemble m2 t) = true.
Proof.
  intros H0 H12 H2. unfold assemble.
  destruct m1 as [| p1 | p1]; [| | lia]; (destruct m2 as [| p2 | p2]; [| | lia]); try lia.
  - reflexivity.
  - destruct (Z.pos p2 =? 2 ^ 53); [destruct (t + 1 <=? 971) | destruct (t <=? 971)]; reflexivity.
  - destruct (Z.eqb_spec (Z.pos p1) (2 ^ 53)) as [E1 | E1];
    destruct (Z.eqb_spec (Z.pos p2) (2 ^ 53)) as [E2 | E2]; try lia.
    + destruct (t + 1 <=? 971); [| reflexivity].
      rewrite SFleb_finite, Z.eqb_refl. simpl. rewrite orb_true_r. reflexivity.
    + destruct (Z.leb_spec t 971); destruct (Z.leb_spec (t + 1) 971); try lia; try reflexivity.
      rewrite SFleb_finite. destruct (Z.ltb_spec t (t + 1)); [reflexivity | lia].
    + destruct (Z.leb_spec t 971); [| reflexivity].
      rewrite SFleb_finite, Z.eqb_refl. simpl.
      destruct (Z.leb_spec (Z.pos p1) (Z.pos p2)); [apply orb_true_r | lia].
Qed.

Lemma assemble_mono_lt (m1 m2 t1 t2 : Z) :
  t1 < t2 -> 0 <= m1 <= 2 ^ 53 -> 2 ^ 52 <= m2 <= 2 ^ 53 ->
  SFleb (assemble m1 t1) (assemble m2 t2) = true.
Proof.
  intros Ht H1 H2. unfold assemble.
  destruct m2 as [| p2 | p2]; [lia | | lia].
  destruct m1 as [| p1 | p1]; [| | lia].
  - destruct (Z.pos p2 =? 2 ^ 53); [destruct (t2 + 1 <=? 971) | destruct (t2 <=? 971)]; reflexivity.
  - destruct (Z.eqb_spec (Z.pos p1) (2 ^ 53)) as [E1 | E1];
    destruct (Z.eqb_spec (Z.pos p2) (2 ^ 53)) as [E2 | E2];
    repeat match goal with
           | |- context [?a <=? 971] => destruct (Z.leb_spec a 971)
           end; try lia; try reflexivity;
    rewrite SFleb_finite;
    repeat match goal with
           | |- context [?a <? ?b] => destruct (Z.ltb_spec a b)
           | |- context [?a =? ?b] => destruct (Z.eqb_spec a b)
           | |- context [?a <=? ?b] => destruct (Z.leb_spec a b)
           end; simpl; try reflexivity; try lia.
Qed.

Local Open Scope Q_scope.

(** Rounding is monotone. *)
Lemma binary_round_mono (M1 M2 : positive) (e1 e2 : Z) :
  dyadic (Z.pos M1) e1 <= dyadic (Z.pos M2) e2 ->
  SFleb (binary_round prec emax false M1 e1) (binary_round prec emax false M2 e2) = true.
Proof.
  intros Hv. rewrite !binary_round_assemble.
  pose proof (mag_mono M1 M2 e1 e2 Hv) as Hmag.
  pose proof (roundMantissa_bounds M1 e1) as Hb1. pose proof (roundMantissa_bounds M2 e2) as Hb2.
  destruct (Z.eq_dec (roundExponent M1 e1) (roundExponent M2 e2)) as [Heq | Hne].
  - rewrite Heq. apply assemble_mono_same; try lia.
    unfold roundMantissa. rewrite Heq. apply roundHalfEven_mono.
    replace (e1 - roundExponent M2 e2)%Z with (e1 + - roundExponent M2 e2)%Z by lia.
    replace (e2 - roundExponent M2 e2)%Z with (e2 + - roundExponent M2 e2)%Z by lia.
    apply dyadic_le_shift, Hv.
  - assert (Hlt : (roundExponent M1 e1 < roundExponent M2 e2)%Z)
      by (rewrite !roundExponent_eq in *; lia).
    apply assemble_mono_lt; [exact Hlt | exact Hb1 |].
    split; [| lia].
    unfold roundMantissa. apply roundHalfEven_ge.
    assert (Ht2 : roundExponent M2 e2 = (Z.pos (digits2_pos M2) + e2 - 53)%Z)
      by (rewrite !roundExponent_eq in *; lia).
    pose proof (dyadic_bounds M2 (e2 - roundExponent M2 e2)) as [Hl _].
    replace (Z.pos (digits2_pos M2) - 1 + (e2 - roundExponent M2 e2))%Z with 52%Z in Hl by lia.
    rewrite (twoTo_Z 52) in Hl by lia. exact Hl.
Qed.

Local Open Scope Z_scope.

(** *** Valid floats *)

Lemma valid_finite_inv (s : bool) (m : positive) (e : Z) :
  SpecFloat.valid_binary prec emax (S754_finite s m e) = true ->
  Z.pos (digits2_pos m) <= 53 /\ -1074 <= e <= 971 /\
  (-1074 < e -> Z.pos (digits2_pos m) = 53).
Proof.
  unfold SpecFloat.valid_binary, bounded, canonical_mantissa, fexp, emin, prec, emax.
  intros H. apply andb_true_iff in H as [H1 H2].
  apply Z.eqb_eq in H1. apply Z.leb_le in H2. lia.
Qed.

Lemma SFltb_finite (m1 m2 : positive) (e1 e2 : Z) :
  SFltb (S754_finite false m1 e1) (S754_finite false m2 e2) =
  (e1 <? e2) || ((e1 =? e2) && (Z.pos m1 <? Z.pos m2)).
Proof.
  unfold SFltb, SFcompare.
  destruct (Z.compare_spec e1 e2) as [-> | H | H].
  - rewrite Z.ltb_irrefl, Z.eqb_refl. simpl.
    unfold Z.ltb. simpl Z.compare.
    change (Pos.compare_cont Eq m1 m2) with (Pos.compare m1 m2).
    destruct (Pos.compare m1 m2); reflexivity.
  - destruct (Z.ltb_spec e1 e2); [reflexivity | lia].
  - destruct (Z.ltb_spec e1 e2); [lia |]. destruct (Z.eqb_spec e1 e2); [lia | reflexivity].
Qed.

Local Open Scope Q_scope.

Lemma dyadic_pos (m : positive) (e : Z) : 0 < dyadic (Z.pos m) e.
Proof.
  unfold dyadic. apply Qmult_lt_0_compat; [reflexivity | apply twoTo_pos].
Qed.

Lemma dyadic_le_same (m1 m2 : positive) (e : Z) :
  (Z.pos m1 <= Z.pos m2)%Z -> dyadic (Z.pos m1) e <= dyadic (Z.pos m2) e.
Proof.
  intros H. unfold dyadic. rewrite Zle_Qle in H. pose proof (twoTo_pos e). nra.
Qed.

(** On valid floats the order the comparison computes is the order of the
    values. *)
Lemma SFleb_dyadic (m1 m2 : positive) (e1 e2 : Z) :
  SpecFloat.valid_binary prec emax (S754_finite false m1 e1) = true ->
  SpecFloat.valid_binary prec emax (S754_finite false m2 e2) = true ->
  SFleb (S754_finite false m1 e1) (S754_finite false m2 e2) = true ->
  dyadic (Z.pos m1) e1 <= dyadic (Z.pos m2) e2.
Proof.
  intros V1 V2 H. rewrite SFleb_finite in H.
  apply valid_finite_inv in V1 as (D1 & R1 & N1).
  apply valid_finite_inv in V2 as (D2 & R2 & N2).
  apply orb_true_iff in H as [H | H].
  - apply Z.ltb_lt in H.
    pose proof (dyadic_bounds m1 e1) as [_ Hu].
    pose proof (dyadic_bounds m2 e2) as [Hl _].
    assert (Hp : twoTo (Z.pos (digits2_pos m1) + e1) <= twoTo (Z.pos (digits2_pos m2) - 1 + e2))
      by (apply twoTo_le; lia).
    lra.
  - apply andb_true_iff in H as [He Hm].
    apply Z.eqb_eq in He. apply Z.leb_le in Hm. subst e2.
    apply dyadic_le_same, Hm.
Qed.

Local Open Scope Z_scope.

(** A canonical float is its own rounding. *)
Lemma binary_round_valid (m : positive) (e : Z) :
  SpecFloat.valid_binary prec emax (S754_finite false m e) = true ->
  binary_round prec emax false m e = S754_finite false m e.
Proof.
  intros V. pose proof V as V'.
  apply valid_finite_inv in V' as (D & R & N).
  rewrite binary_round_assemble.
  assert (Ht : roundExponent m e = e) by (rewrite roundExponent_eq; lia).
  unfold roundMantissa. rewrite Ht.
  replace (e - e) with 0 by lia.
  rewrite (roundHalfEven_comp _ (inject_Z (Z.pos m))), roundHalfEven_inject
    by (unfold dyadic; rewrite twoTo_0; ring).
  unfold assemble.
  pose proof (digits_le_bound m 53 D) as Hm.
  destruct (Z.eqb_spec (Z.pos m) (2 ^ 53)); [lia |].
  destruct (Z.leb_spec e 971); [reflexivity | lia].
Qed.

Lemma assemble_nonneg (m t : Z) :
  0 <= m ->
  assemble m t = S754_zero false \/
  (exists p e, assemble m t = S754_finite false p e) \/
  assemble m t = S754_infinity false.
Proof.
  intros H. unfold assemble. destruct m as [| p | p]; [auto | | lia].
  destruct (Z.pos p =? 2 ^ 53).
  - destruct (t + 1 <=? 971); eauto.
  - destruct (t <=? 971); eauto.
Qed.

Lemma binary_round_nonneg (M : positive) (e : Z) :
  binary_round prec emax false M e = S754_zero false \/
  (exists p e', binary_round prec emax false M e = S754_finite false p e') \/
  binary_round prec emax false M e = S754_infinity false.
Proof.
  rewrite binary_round_assemble. apply assemble_nonneg. apply roundMantissa_bounds.
Qed.

(** ** Multiplication by a positive normal number *)

Lemma digits_mul (a b : positive) :
  Z.pos (digits2_pos a) + Z.pos (digits2_pos b) - 1 <= Z.pos (digits2_pos (a * b)).
Proof.
  pose proof (digits2_pos_bounds a) as [Ha _].
  pose proof (digits2_pos_bounds b) as [Hb _].
  pose proof (digits2_pos_bounds (a * b)) as [_ Hab].
  set (da := Z.pos (digits2_pos a)) in *. set (db := Z.pos (digits2_pos b)) in *.
  set (dab := Z.pos (digits2_pos (a * b))) in *.
  destruct (Z.le_gt_cases (da + db - 1) dab) as [H | H]; [exact H | exfalso].
  assert (H1 : 2 ^ dab <= 2 ^ (da - 1 + (db - 1))) by (apply Z.pow_le_mono_r; lia).
  rewrite Z.pow_add_r in H1 by lia.
  rewrite Pos2Z.inj_mul in Hab.
  assert (0 < 2 ^ (da - 1)) by (apply Z.pow_pos_nonneg; lia).
  assert (0 < 2 ^ (db - 1)) by (apply Z.pow_pos_nonneg; lia).
  nia.
Qed.

Lemma SFmul_round (mx mc : positive) (ex ec : Z) :
  Z.pos (digits2_pos mc) = 53 ->
  SFmul prec emax (S754_finite false mx ex) (S754_finite false mc ec) =
  binary_round prec emax false (mx * mc) (ex + ec).
Proof.
  intros Hc. unfold SFmul. simpl xorb.
  rewrite binary_round_assemble.
  change (Z.pos (mx * mc)) with (Z.pos (mx * mc)%positive).
  apply binary_round_aux_assemble.
  rewrite roundExponent_eq. pose proof (digits_mul mx mc). lia.
Qed.

Local Open Scope Z_scope.

Lemma SFleb_zero_l (s : bool) (x : spec_float) :
  x = S754_zero false \/ (exists p e, x = S754_finite false p e) \/ x = S754_infinity false ->
  SFleb (S754_zero s) x = true.
Proof. intros [-> | [(p & e & ->) | ->]]; reflexivity. Qed.

Lemma SFleb_refl_finite (m : positive) (e : Z) :
  SFleb (S754_finite false m e) (S754_finite false m e) = true.
Proof.
  rewrite SFleb_finite, Z.eqb_refl, Z.leb_refl. apply orb_true_r.
Qed.

Lemma dyadic_mul (a b : positive) (e f : Z) :
  (dyadic (Z.pos (a * b)) (e + f) == dyadic (Z.pos a) e * dyadic (Z.pos b) f)%Q.
Proof.
  unfold dyadic. rewrite Pos2Z.inj_mul, inject_Z_mult, twoTo_add. ring.
Qed.

(** [x <= y] gives [x * c <= y * c]. *)
Lemma SFmul_mono (x y c : spec_float) :
  SFnonnegFinite x = true -> SFnonnegFinite y = true -> SFposNormal c = true ->
  valid x -> valid y ->
  SFleb x y = true ->
  SFleb (SFmul prec emax x c) (SFmul prec emax y c) = true.
Proof.
  intros Nx Ny Nc Vx Vy Hle.
  destruct c as [| | | [|] mc ec]; try discriminate.
  change ((Z.pos (digits2_pos mc) =? 53) = true) in Nc. apply Z.eqb_eq in Nc.
  destruct x as [sx | | | [|] mx ex]; try discriminate;
    destruct y as [sy | | | [|] my ey]; try discriminate.
  - destruct sx, sy; reflexivity.
  - rewrite (SFmul_round my mc ey ec Nc).
    apply (SFleb_zero_l (xorb sx false)), binary_round_nonneg.
  - rewrite !(SFmul_round _ mc _ ec Nc).
    apply binary_round_mono. rewrite !dyadic_mul.
    pose proof (SFleb_dyadic mx my ex ey Vx Vy Hle).
    pose proof (dyadic_pos mc ec). nra.
Qed.

(** The product of a nonnegative number and a positive normal one is not
    negative. *)
Lemma SFmul_nonneg (x c : spec_float) :
  SFnonnegFinite x = true -> SFposNormal c = true ->
  SFmul prec emax x c = S754_infinity false \/ SFnonnegFinite (SFmul prec emax x c) = true.
Proof.
  intros Nx Nc.
  destruct c as [| | | [|] mc ec]; try discriminate.
  change ((Z.pos (digits2_pos mc) =? 53) = true) in Nc. apply Z.eqb_eq in Nc.
  destruct x as [sx | | | [|] mx ex]; try discriminate.
  - right. reflexivity.
  - rewrite (SFmul_round mx mc ex ec Nc).
    destruct (binary_round_nonneg (mx * mc) (ex + ec)) as [-> | [(p & e & ->) | ->]]; auto.
Qed.

(** ** Addition to a positive number *)

Lemma shl_align_dyadic (m : positive) (e ez : Z) :
  ez <= e ->
  (dyadic (Z.pos (fst (shl_align m e ez))) ez == dyadic (Z.pos m) e)%Q.
Proof.
  intros Hle. unfold shl_align.
  destruct (ez - e) as [| d | d] eqn:Hd; try lia.
  - simpl fst. replace ez with e by lia. reflexivity.
  - simpl fst. unfold dyadic. rewrite iter_xO_dyadic, inject_Z_mult.
    replace e with (ez + Z.pos d) by lia. rewrite twoTo_add, (twoTo_Z (Z.pos d)) by lia.
    ring.
Qed.

Lemma SFadd_round (mx my : positive) (ex ey : Z) :
  exists M e,
    SFadd prec emax (S754_finite false mx ex) (S754_finite false my ey) =
    binary_round prec emax false M e /\
    (dyadic (Z.pos M) e == dyadic (Z.pos mx) ex + dyadic (Z.pos my) ey)%Q.
Proof.
  unfold SFadd, cond_Zopp, binary_normalize.
  set (ez := Z.min ex ey).
  exists (fst (shl_align mx ex ez) + fst (shl_align my ey ez))%positive, ez.
  split; [reflexivity |].
  rewrite <- (shl_align_dyadic mx ex ez), <- (shl_align_dyadic my ey ez) by lia.
  unfold dyadic. rewrite Pos2Z.inj_add, inject_Z_plus. ring.
Qed.

(** [y1 <= y2] gives [x + y1 <= x + y2]. *)
Lemma SFadd_mono (x y1 y2 : spec_float) :
  (exists mx ex, x = S754_finite false mx ex) -> valid x ->
  SFnonnegFinite y1 = true -> SFnonnegFinite y2 = true ->
  valid y1 -> valid y2 ->
  SFleb y1 y2 = true ->
  SFleb (SFadd prec emax x y1) (SFadd prec emax x y2) = true.
Proof.
  intros (mx & ex & ->) Vx N1 N2 V1 V2 Hle.
  destruct y1 as [s1 | | | [|] m1 e1]; try discriminate;
    destruct y2 as [s2 | | | [|] m2 e2]; try discriminate.
  - simpl. apply SFleb_refl_finite.
  - change (SFadd prec emax (S754_finite false mx ex) (S754_zero s1))
      with (S754_finite false mx ex).
    destruct (SFadd_round mx m2 ex e2) as (M & e & -> & Hv).
    rewrite <- (binary_round_valid mx ex Vx).
    apply binary_round_mono. rewrite Hv. pose proof (dyadic_pos m2 e2). lra.
  - destruct (SFadd_round mx m1 ex e1) as (M1 & f1 & -> & Hv1).
    destruct (SFadd_round mx m2 ex e2) as (M2 & f2 & -> & Hv2).
    apply binary_round_mono. rewrite Hv1, Hv2.
    pose proof (SFleb_dyadic m1 m2 e1 e2 V1 V2 Hle). lra.
Qed.

(** ** On primitive floats *)

Local Open Scope float_scope.

Lemma mul_mono_r (x y c : float) :
  nonnegFinite x = true -> nonnegFinite y = true -> posNormal c = true ->
  (x <=? y) = true -> (x * c <=? y * c) = true.
Proof.
  intros Nx Ny Nc Hle. rewrite FloatAxioms.leb_spec in *. rewrite !FloatAxioms.mul_spec.
  apply SFmul_mono; try assumption; apply Prim2SF_valid.
Qed.

Lemma add_mono_r (x y1 y2 : float) :
  posNormal x = true ->
  nonnegFinite y1 = true -> nonnegFinite y2 = true ->
  (y1 <=? y2) = true -> (x + y1 <=? x + y2) = true.
Proof.
  intros Nx N1 N2 Hle. rewrite FloatAxioms.leb_spec in *. rewrite !FloatAxioms.add_spec.
  apply SFadd_mono; try assumption; try apply Prim2SF_valid.
  unfold posNormal, SFposNormal in Nx.
  destruct (Prim2SF x) as [| | | [|] m e]; try discriminate. eauto.
Qed.

(** A product that stays below a finite bound is finite. *)
Lemma mul_nonnegFinite (x c b : float) :
  nonnegFinite x = true -> posNormal c = true -> nonnegFinite b = true ->
  (x * c <=? b) = true -> nonnegFinite (x * c) = true.
Proof.
  intros Nx Nc Nb Hle. rewrite FloatAxioms.leb_spec in Hle. unfold nonnegFinite in *.
  rewrite FloatAxioms.mul_spec in *.
  destruct (SFmul_nonneg (Prim2SF x) (Prim2SF c) Nx Nc) as [Hinf | Hnf]; [| exact Hnf].
  unfold SF64mul in Hle. rewrite Hinf in Hle.
  destruct (Prim2SF b) as [| | | [|] m e]; discriminate.
Qed.

(** A float in [0, 1) is zero or positive, and at most the largest double
    below 1. *)
Lemma unit_interval (r : float) :
  (0 <=? r) = true -> (r <? 1) = true ->
  nonnegFinite r = true /\ (r <=? 0x1.fffffffffffffp-1) = true.
Proof.
  intros H0 H1. rewrite FloatAxioms.leb_spec in *. rewrite FloatAxioms.ltb_spec in H1.
  unfold nonnegFinite.
  pose proof (Prim2SF_valid r) as V.
  change (Prim2SF 0) with (S754_zero false) in H0.
  change (Prim2SF 1) with (S754_finite false 4503599627370496 (-52)) in H1.
  change (Prim2SF 0x1.fffffffffffffp-1) with (S754_finite false 9007199254740991 (-53)).
  destruct (Prim2SF r) as [s | [|] | | [|] m e]; try discriminate.
  - split; reflexivity.
  - split; [reflexivity |].
    rewrite SFltb_finite in H1. rewrite SFleb_finite.
    apply valid_finite_inv in V as (D & R & N).
    pose proof (digits2_pos_bounds m) as [Hl Hu].
    pose proof (digits_le_bound m 53 D) as Hm.
    apply orb_true_iff in H1 as [H1 | H1].
    + apply Z.ltb_lt in H1.
      destruct (Z.ltb_spec e (-53)); [reflexivity |].
      destruct (Z.eqb_spec e (-53)); [| lia].
      destruct (Z.leb_spec (Z.pos m) 9007199254740991); [reflexivity | lia].
    + apply andb_true_iff in H1 as [He Hlt].
      apply Z.eqb_eq in He. apply Z.ltb_lt in Hlt.
      rewrite N in Hl by lia. simpl in Hl. lia.
Qed.

Local Open Scope Z_scope.

(** *** Scaling by a power of two *)

Lemma digits_unique (M : positive) (n : Z) :
  2 ^ (n - 1) <= Z.pos M < 2 ^ n -> Z.pos (digits2_pos M) = n.
Proof.
  intros [Hl Hu]. pose proof (digits2_pos_bounds M) as [Dl Du].
  assert (H1 : Z.pos (digits2_pos M) <= n) by (apply digits_of_bound, Hu).
  destruct (Z.eq_dec (Z.pos (digits2_pos M)) n) as [E | E]; [exact E | exfalso].
  assert (2 ^ Z.pos (digits2_pos M) <= 2 ^ (n - 1)) by (apply Z.pow_le_mono_r; lia).
  lia.
Qed.

Lemma valid_normal (m : positive) (e : Z) :
  Z.pos (digits2_pos m) = 53 -> -1074 <= e <= 971 ->
  valid (S754_finite false m e).
Proof.
  intros D R. unfold SpecFloat.valid_binary, bounded, canonical_mantissa, fexp, emin, prec, emax.
  rewrite D. apply andb_true_iff. split; [apply Z.eqb_eq | apply Z.leb_le]; lia.
Qed.

Lemma assemble_shift (m t k : Z) (p : positive) (t' : Z) :
  assemble m t = S754_finite false p t' -> 0 <= k -> t' + k <= 971 ->
  assemble m (t + k) = S754_finite false p (t' + k).
Proof.
  unfold assemble. intros H Hk Hr. destruct m as [| q | q]; try discriminate.
  destruct (Z.pos q =? 2 ^ 53).
  - destruct (Z.leb_spec (t + 1) 971); [| discriminate].
    injection H as <- <-.
    destruct (Z.leb_spec (t + k + 1) 971); [f_equal; lia | lia].
  - destruct (Z.leb_spec t 971); [| discriminate].
    injection H as <- <-.
    destruct (Z.leb_spec (t + k) 971); [reflexivity | lia].
Qed.

(** Scaling a dyadic by [2^k] scales its rounding, as long as the result
    stays normal and finite. *)
Lemma binary_round_shift (M : positive) (e k : Z) (p : positive) (t : Z) :
  binary_round prec emax false M e = S754_finite false p t ->
  -1074 <= Z.pos (digits2_pos M) + e - 53 -> 0 <= k -> t + k <= 971 ->
  binary_round prec emax false M (e + k) = S754_finite false p (t + k).
Proof.
  intros H Hn Hk Hr. rewrite binary_round_assemble in *.
  assert (Ht : roundExponent M (e + k) = roundExponent M e + k) by (rewrite !roundExponent_eq; lia).
  assert (Hm : roundMantissa M (e + k) = roundMantissa M e).
  { unfold roundMantissa. rewrite Ht. f_equal. f_equal. lia. }
  rewrite Ht, Hm. apply assemble_shift; assumption.
Qed.

Lemma pow2_spec (k : Z) :
  0 <= k <= 1023 ->
  Prim2SF (Z.ldexp 1 k) = S754_finite false 4503599627370496 (k - 52).
Proof.
  intros Hk. rewrite Z_ldexp_spec.
  change (Prim2SF 1) with (S754_finite false 4503599627370496 (-52)).
  unfold SFldexp.
  replace (-52 + k) with (k - 52) by lia.
  apply binary_round_valid, valid_normal; [reflexivity | lia].
Qed.

(** Multiplying a normal number by [2^k] is exact. *)
Lemma scale_spec (C : float) (m : positive) (e k : Z) :
  Prim2SF C = S754_finite false m e ->
  Z.pos (digits2_pos m) = 53 -> -1074 <= e -> 0 <= k <= 1023 -> e + k <= 971 ->
  Prim2SF (C * Z.ldexp 1 k) = S754_finite false m (e + k).
Proof.
  intros HC D He Hk Hr.
  rewrite FloatAxioms.mul_spec, HC, pow2_spec by lia.
  unfold SF64mul. rewrite SFmul_round by reflexivity.
  replace (e + (k - 52)) with (e - 52 + k) by lia.
  pose proof (digits2_pos_bounds m) as [Dl Du]. rewrite D in Dl, Du.
  assert (D2 : Z.pos (digits2_pos (m * 4503599627370496)) = 105).
  { apply digits_unique. rewrite Pos2Z.inj_mul.
    change (2 ^ (53 - 1)) with 4503599627370496 in Dl.
    change (2 ^ 53) with 9007199254740992 in Du.
    change (2 ^ (105 - 1)) with (4503599627370496 * 4503599627370496).
    change (2 ^ 105) with (9007199254740992 * 4503599627370496).
    change (Z.pos 4503599627370496) with 4503599627370496. nia. }
  apply binary_round_shift; try lia.
  rewrite binary_round_assemble.
  assert (Ht : roundExponent (m * 4503599627370496) (e - 52) = e)
    by (rewrite roundExponent_eq; lia).
  unfold roundMantissa. rewrite Ht.
  assert (Hv : (dyadic (Z.pos (m * 4503599627370496)) (e - 52 - e) == inject_Z (Z.pos m))%Q).
  { replace (e - 52 - e) with (0 + -52) by lia. rewrite dyadic_mul.
    assert (H1 : (dyadic 4503599627370496 (-52) == 1)%Q) by reflexivity.
    rewrite H1. unfold dyadic. rewrite twoTo_0. ring. }
  rewrite (roundHalfEven_comp _ _ Hv), roundHalfEven_inject.
  unfold assemble.
  destruct (Z.eqb_spec (Z.pos m) (2 ^ 53)); [lia |].
  destruct (Z.leb_spec e 971); [reflexivity | lia].
Qed.

Local Open Scope Z_scope.

(** *** Chaining comparisons *)

Lemma SF_chain (a b : spec_float) (mL mU mE : positive) (eL eU eE : Z) :
  SFleb (S754_finite false mL eL) a = true ->
  SFleb a (S754_finite false mU eU) = true ->
  SFltb (S754_finite false mU eU) (S754_finite false mE eE) = true ->
  SFleb (S754_finite false mE eE) b = true ->
  SFltb a b = true.
Proof.
  intros HL HU HUE HE.
  destruct a as [sa | [|] | | [|] ma ea]; try discriminate.
  destruct b as [sb | [|] | | [|] mb eb]; try discriminate; [reflexivity |].
  rewrite SFleb_finite in HU, HE. rewrite SFltb_finite in *.
  repeat match goal with
         | H : context [?x <? ?y] |- _ => destruct (Z.ltb_spec x y)
         | H : context [?x =? ?y] |- _ => destruct (Z.eqb_spec x y)
         | H : context [?x <=? ?y] |- _ => destruct (Z.leb_spec x y)
         | |- context [?x <? ?y] => destruct (Z.ltb_spec x y)
         | |- context [?x =? ?y] => destruct (Z.eqb_spec x y)
         end; simpl in *; try discriminate; try reflexivity; try lia.
Qed.

Local Open Scope float_scope.

Lemma nonnegFinite_leb_zero (x : float) : nonnegFinite x = true -> (0 <=? x) = true.
Proof.
  unfold nonnegFinite. rewrite FloatAxioms.leb_spec.
  change (Prim2SF 0) with (S754_zero false).
  destruct (Prim2SF x) as [s | | | [|] m e]; try discriminate; reflexivity.
Qed.

(** *** The delay of the queue, attempt [k] *)

Section Scaled.

Variable k : Z.
Hypothesis Hk : (0 <= k <= 1000)%Z.

(** [exponentialDelay] of attempt [k], for the queue's [baseDelay]. *)
Local Abbreviation E := (1000 * Z.ldexp 1 k)%float.

(** It is [1000 * 2^k], exactly. *)
Lemma E_spec : Prim2SF E = S754_finite false 8796093022208000 (-43 + k).
Proof using Hk. apply scale_spec; try reflexivity; lia. Qed.

Lemma E_posNormal : posNormal E = true.
Proof using Hk. unfold posNormal. rewrite E_spec. reflexivity. Qed.

(** The largest jitter: that of the largest double below 1. *)
Lemma jitter_max_spec :
  Prim2SF (belowOne * tenth * E) = S754_finite false 7036874417766399 (-46 + k).
Proof using Hk.
  rewrite FloatAxioms.mul_spec, E_spec.
  change (Prim2SF (belowOne * tenth)) with (S754_finite false 7205759403792793 (-56)).
  unfold SF64mul. rewrite SFmul_round by reflexivity.
  replace (-56 + (-43 + k))%Z with (-56 + -43 + k)%Z by lia.
  apply binary_round_shift; [vm_compute; reflexivity | simpl; lia | lia | lia].
Qed.

(** The largest delay is [1100 * 2^k]. *)
Lemma upper_spec :
  Prim2SF (E + belowOne * tenth * E) = S754_finite false 4837851162214400 (-42 + k).
Proof using Hk.
  rewrite FloatAxioms.add_spec, E_spec, jitter_max_spec.
  unfold SF64add, SFadd, cond_Zopp.
  replace (Z.min (-43 + k) (-46 + k)) with (-46 + k)%Z by lia.
  unfold shl_align.
  replace (-46 + k - (-43 + k))%Z with (-3)%Z by lia.
  replace (-46 + k - (-46 + k))%Z with 0%Z by lia.
  simpl fst.
  match goal with
  | |- context [binary_normalize _ _ ?m _ _] =>
      replace m with (Z.pos 77405618595430399) by (vm_compute; reflexivity)
  end.
  unfold binary_normalize.
  apply binary_round_shift; [vm_compute; reflexivity | simpl; lia | lia | lia].
Qed.

Lemma upper_eq : E + belowOne * tenth * E = 1100 * Z.ldexp 1 k.
Proof using Hk.
  apply Prim2SF_inj. rewrite upper_spec. symmetry.
  apply scale_spec; try reflexivity; lia.
Qed.

Lemma lower_eq : E + 0 = E.
Proof using Hk.
  apply Prim2SF_inj. rewrite FloatAxioms.add_spec, E_spec. reflexivity.
Qed.

(** Every jitter outcome in [0, 1) gives a delay between [1000 * 2^k] and
    [1100 * 2^k]: each rounding on the way is monotone. *)
Lemma delay_bounds (r : float) :
  (0 <=? r) = true -> (r <? 1) = true ->
  (E <=? E + r * tenth * E) = true /\
  (E + r * tenth * E <=? 1100 * Z.ldexp 1 k) = true.
Proof using Hk.
  intros H0 H1.
  destruct (unit_interval r H0 H1) as [Nr Hr].
  fold belowOne in Hr.
  assert (Nb : nonnegFinite belowOne = true) by reflexivity.
  assert (Nc : posNormal tenth = true) by reflexivity.
  assert (L1 : (r * tenth <=? belowOne * tenth) = true) by (apply mul_mono_r; assumption).
  assert (N1 : nonnegFinite (r * tenth) = true)
    by (apply (mul_nonnegFinite r tenth (belowOne * tenth)); try assumption; reflexivity).
  assert (Nm : nonnegFinite (belowOne * tenth * E) = true)
    by (unfold nonnegFinite; rewrite jitter_max_spec; reflexivity).
  assert (L2 : (r * tenth * E <=? belowOne * tenth * E) = true)
    by (apply mul_mono_r; [exact N1 | reflexivity | apply E_posNormal | exact L1]).
  assert (N2 : nonnegFinite (r * tenth * E) = true)
    by (apply (mul_nonnegFinite (r * tenth) E (belowOne * tenth * E));
        try assumption; apply E_posNormal).
  split.
  - rewrite <- lower_eq at 1.
    apply add_mono_r;
      [apply E_posNormal | reflexivity | exact N2 | apply nonnegFinite_leb_zero, N2].
  - rewrite <- upper_eq.
    apply add_mono_r; [apply E_posNormal | exact N2 | exact Nm | exact L2].
Qed.

End Scaled.

Local Open Scope float_scope.

Lemma scaled_1100_spec (k : Z) :
  (0 <= k <= 1000)%Z ->
  Prim2SF (1100 * Z.ldexp 1 k) = S754_finite false 4837851162214400 (-42 + k).
Proof. intros Hk. apply scale_spec; try reflexivity; lia. Qed.

(** The delays of attempts [k] and [k + 1] are apart: [1100 * 2^k] is
    below [1000 * 2^(k+1)]. *)
Lemma delay_increasing (k : Z) (r r' : float) :
  (0 <= k)%Z -> (k + 1 <= 1000)%Z ->
  (0 <=? r) = true -> (r <? 1) = true ->
  (0 <=? r') = true -> (r' <? 1) = true ->
  (1000 * Z.ldexp 1 k + r * tenth * (1000 * Z.ldexp 1 k) <?
   1000 * Z.ldexp 1 (k + 1) + r' * tenth * (1000 * Z.ldexp 1 (k + 1))) = true.
Proof.
  intros Hk0 Hk1 H0 H1 H0' H1'.
  destruct (delay_bounds k ltac:(lia) r H0 H1) as [L U].
  destruct (delay_bounds (k + 1) ltac:(lia) r' H0' H1') as [L' _].
  rewrite FloatAxioms.leb_spec in L, U, L'. rewrite FloatAxioms.ltb_spec.
  rewrite (E_spec k) in L by lia. rewrite (E_spec (k + 1)) in L' by lia.
  rewrite (scaled_1100_spec k) in U by lia.
  eapply SF_chain; [exact L | exact U | | exact L'].
  rewrite SFltb_finite.
  replace (-43 + (k + 1))%Z with (-42 + k)%Z by lia.
  rewrite Z.ltb_irrefl, Z.eqb_refl. reflexivity.
Qed.

End Rounding.

(** ** The backoff delay, as the code computes it *)

Local Open Scope float_scope.

(** C4 (as the code has it): for every attempt index [k] and every jitter
    outcome [r] in [0, 1), the delay is the value of
    [baseDelay * 2^k + r * 0.1 * baseDelay * 2^k].  Without rounding it lies
    in [baseDelay * 2^k, baseDelay * 2^k * 1.1).  On doubles, with the
    queue's [baseDelay] of 1000 and [k] up to 1000, it lies in the closed
    interval from [1000 * 2^k] to [1100 * 2^k]. *)
Theorem calculateDelay_interval :
  (forall (baseDelay r : Q) (k : nat),
     (0 < baseDelay)%Q -> (0 <= r)%Q -> (r < 1)%Q ->
     (calculateDelay (A := exact) baseDelay r k ==
        baseDelay * 2 ^ Z.of_nat k + r * (1 # 10) * (baseDelay * 2 ^ Z.of_nat k) /\
      baseDelay * 2 ^ Z.of_nat k <= calculateDelay (A := exact) baseDelay r k /\
      calculateDelay (A := exact) baseDelay r k < baseDelay * 2 ^ Z.of_nat k * (11 # 10))%Q) /\
  (forall (r : float) (k : nat),
     (0 <=? r) = true -> (r <? 1) = true -> (k <= 1000)%nat ->
     (1000 * num_pow2 k <=? calculateDelay (baseDelay (constructor [])) r k) = true /\
     (calculateDelay (baseDelay (constructor [])) r k <=? 1100 * num_pow2 k) = true).
Proof.
  split.
  - exact exact_interval.
  - intros r k H0 H1 Hk.
    exact (delay_bounds (Z.of_nat k) ltac:(lia) r H0 H1).
Qed.

(** C9 (as the code has it): whatever the two jitter outcomes, the delay
    of attempt [k] is bounded by [baseDelay * 2^k * 1.1], which is below
    [baseDelay * 2^(k+1)], the least delay attempt [k + 1] can get; so the
    delays grow from one attempt to the next.  Without rounding this holds
    for every [k], the delay of attempt [k] being below the bound.  On
    doubles, with the queue's [baseDelay] of 1000, it holds for every [k]
    below 1000, the delay of attempt [k] being at most [1100 * 2^k]. *)
Theorem calculateDelay_increasing :
  (forall (baseDelay r r' : Q) (k : nat),
     (0 < baseDelay)%Q -> (0 <= r)%Q -> (r < 1)%Q -> (0 <= r')%Q -> (r' < 1)%Q ->
     (calculateDelay (A := exact) baseDelay r k < baseDelay * 2 ^ Z.of_nat k * (11 # 10) /\
      baseDelay * 2 ^ Z.of_nat k * (11 # 10) < baseDelay * 2 ^ Z.of_nat (S k) /\
      baseDelay * 2 ^ Z.of_nat (S k) <= calculateDelay (A := exact) baseDelay r' (S k) /\
      calculateDelay (A := exact) baseDelay r k <
        calculateDelay (A := exact) baseDelay r' (S k))%Q) /\
  (forall (r r' : float) (k : nat),
     (0 <=? r) = true -> (r <? 1) = true ->
     (0 <=? r') = true -> (r' <? 1) = true -> (S k <= 1000)%nat ->
     (calculateDelay (baseDelay (constructor [])) r k <=? 1100 * num_pow2 k) = true /\
     (1100 * num_pow2 k <? 1000 * num_pow2 (S k)) = true /\
     (1000 * num_pow2 (S k) <=? calculateDelay (baseDelay (constructor [])) r' (S k)) = true /\
     (calculateDelay (baseDelay (constructor [])) r k <?
        calculateDelay (baseDelay (constructor [])) r' (S k)) = true).
Proof.
  split.
  - exact exact_increasing.
  - intros r r' k H0 H1 H0' H1' Hk.
    assert (Hs : Z.of_nat (S k) = (Z.of_nat k + 1)%Z) by lia.
    split; [exact (proj2 (delay_bounds (Z.of_nat k) ltac:(lia) r H0 H1)) |].
    split; [| split].
    + rewrite FloatAxioms.ltb_spec.
      change (Prim2SF (1100 * num_pow2 k))
        with (Prim2SF (1100 * Z.ldexp 1 (Z.of_nat k))).
      change (Prim2SF (1000 * num_pow2 (S k)))
        with (Prim2SF (1000 * Z.ldexp 1 (Z.of_nat (S k)))).
      rewrite (scaled_1100_spec (Z.of_nat k)) by lia.
      rewrite (E_spec (Z.of_nat (S k))) by lia.
      rewrite SFltb_finite, Hs.
      replace (-43 + (Z.of_nat k + 1))%Z with (-42 + Z.of_nat k)%Z by lia.
      rewrite Z.ltb_irrefl, Z.eqb_refl. reflexivity.
    + exact (proj1 (delay_bounds (Z.of_nat (S k)) ltac:(lia) r' H0' H1')).
    + unfold calculateDelay, num_add, num_mul, num_pow2, num_tenth, binary64.
      rewrite Hs.
      exact (delay_increasing (Z.of_nat k) r r' ltac:(lia) ltac:(lia) H0 H1 H0' H1').
Qed.

(** ** The backoff schedule of one call *)

(** The sleeps of a call that ended at attempt [n]: sleep [i] is the delay
    of attempt [i]. *)
Lemma backoffs_nth (q : RetryQueue) (random : nat -> float) (n i : nat) (d : float) :
  nth_error (backoffs q random n) i = Some d ->
  (i < n)%nat /\ d = calculateDelay (baseDelay q) (random i) i.
Proof.
  unfold backoffs. intros H.
  assert (Hi : (i < n)%nat).
  { assert (Hl : (i < length (map (fun k => calculateDelay (baseDelay q) (random k) k)
                                  (seq 0 n)))%nat)
      by (apply nth_error_Some; rewrite H; discriminate).
    rewrite length_map, length_seq in Hl. exact Hl. }
  split; [exact Hi |].
  rewrite nth_error_map, nth_error_seq in H.
  destruct (Nat.ltb_spec i n) as [_ | Hge]; [| lia].
  simpl in H. injection H as <-. reflexivity.
Qed.

Lemma add_sleeps (StringToNumber : string -> float) (NumberToString : float -> string)
    (q : RetryQueue) (fn : Task) (random : nat -> float) :
  exists n, (n <= maxRetries q)%nat /\
    sleeps (snd (add StringToNumber NumberToString fn random (start q))) =
    backoffs q random n.
Proof.
  rewrite add_addAs, addAs_run.
  exists (lastAttempt StringToNumber NumberToString fn 0 (maxRetries q)). split; [| reflexivity].
  pose proof (lastAttempt_bounds StringToNumber NumberToString fn 0 (maxRetries q)). lia.
Qed.

(** X5: on the queue as built, with [Math.random] giving values in
    [0, 1), every backoff sleep of every task lasts as the attempt before
    it prescribes: there are at most three, and sleep [i] lasts between
    [1000 * 2^i] and [1100 * 2^i] milliseconds (so at most 1100, 2200 and
    4400). *)
Theorem backoff_schedule_bounds (StringToNumber : string -> float)
    (NumberToString : float -> string) (fn : Task) (random : nat -> float)
    (i : nat) (d : float) :
  (forall k, (0 <=? random k) = true /\ (random k <? 1) = true) ->
  nth_error (sleeps (snd (add StringToNumber NumberToString fn random
                            (start (constructor []))))) i = Some d ->
  (i < 3)%nat /\
  (1000 * num_pow2 i <=? d) = true /\ (d <=? 1100 * num_pow2 i) = true.
Proof.
  intros Hr Hn.
  destruct (add_sleeps StringToNumber NumberToString (constructor []) fn random)
    as (n & Hle & Hs).
  rewrite Hs in Hn. apply backoffs_nth in Hn as [Hi ->].
  simpl in Hle. split; [lia |].
  destruct (Hr i) as [H0 H1].
  exact (delay_bounds (Z.of_nat i) ltac:(lia) (random i) H0 H1).
Qed.

(** X6: within one call of [add] on the queue as built, each backoff sleep
    is strictly longer than the one before it, whatever the jitter
    outcomes in [0, 1). *)
Theorem backoff_schedule_increasing (StringToNumber : string -> float)
    (NumberToString : float -> string) (fn : Task) (random : nat -> float)
    (i : nat) (d d' : float) :
  (forall k, (0 <=? random k) = true /\ (random k <? 1) = true) ->
  nth_error (sleeps (snd (add StringToNumber NumberToString fn random
                            (start (constructor []))))) i = Some d ->
  nth_error (sleeps (snd (add StringToNumber NumberToString fn random
                            (start (constructor []))))) (S i) = Some d' ->
  (d <? d') = true.
Proof.
  intros Hr Hn Hn'.
  destruct (add_sleeps StringToNumber NumberToString (constructor []) fn random)
    as (n & Hle & Hs).
  rewrite Hs in Hn, Hn'.
  apply backoffs_nth in Hn as [Hi ->]. apply backoffs_nth in Hn' as [Hi' ->].
  simpl in Hle.
  destruct (Hr i) as [H0 H1]. destruct (Hr (S i)) as [H0' H1'].
  unfold calculateDelay, num_add, num_mul, num_pow2, num_tenth, binary64.
  replace (Z.of_nat (S i)) with (Z.of_nat i + 1)%Z by lia.
  exact (delay_increasing (Z.of_nat i) (random i) (random (S i))
           ltac:(lia) ltac:(lia) H0 H1 H0' H1').
Qed.

Local Close Scope float_scope.

(** * Runs on concrete inputs *)

(** ** The scenarios of the specification *)

(** Scenario A: status 429 twice, then success, with [maxRetries = 3]:
    resolved after 3 attempts and two sleeps. *)
Example scenario_A :
  add digitsToNumber integerToString
    (failsThenReturns 2 (httpError 429) (PStr "page")) halfJitter (start (constructor [])) =
  (Normal (VPrim (PStr "page")),
   {| self := constructor []; calls := 3; draws := 2; sleeps := [1050%float; 2100%float] |}).
Proof. vm_compute. reflexivity. Qed.

(** Scenario B: status 400 every time: rejected after exactly 1 attempt. *)
Example scenario_B :
  add digitsToNumber integerToString
    (alwaysThrows (httpError 400)) halfJitter (start (constructor [])) =
  (Throw (httpError 400),
   {| self := constructor []; calls := 1; draws := 0; sleeps := [] |}).
Proof. vm_compute. reflexivity. Qed.

(** Scenario C: status 503 every time: rejected after exactly 4 attempts
    with the status-503 error. *)
Example scenario_C :
  add digitsToNumber integerToString
    (alwaysThrows (httpError 503)) halfJitter (start (constructor [])) =
  (Throw (httpError 503),
   {| self := constructor []; calls := 4; draws := 3;
      sleeps := [1050%float; 2100%float; 4200%float] |}).
Proof. vm_compute. reflexivity. Qed.

(** A status that arrives as the string '503' is retried as well: [>=]
    converts it to a number. *)
Example string_status_is_retried :
  shouldRetry digitsToNumber
    (VObj {| callable := false; isError := false;
             props := {["status" := PStr "503"]}; display := "[object Object]";
             inconvertible := false |}) = true.
Proof. vm_compute. reflexivity. Qed.

(** ** The theorems at work *)

Lemma add_first_success_witness :
  add digitsToNumber integerToString
    (alwaysReturns (PStr "page")) halfJitter (start (constructor [])) =
  (Normal (VPrim (PStr "page")),
   {| self := constructor []; calls := 1; draws := 0; sleeps := [] |}).
Proof.
  apply (add_first_success digitsToNumber integerToString).
  reflexivity.
Defined.

Lemma add_non_retryable_once_witness :
  add digitsToNumber integerToString
    (alwaysThrows (httpError 400)) halfJitter (start (constructor [])) =
  (Throw (httpError 400),
   {| self := constructor []; calls := 1; draws := 0; sleeps := [] |}).
Proof.
  apply (add_non_retryable_once digitsToNumber integerToString
           (constructor []) (alwaysThrows (httpError 400)) halfJitter (httpError 400)).
  - simpl. lia.
  - reflexivity.
  - vm_compute. reflexivity.
Defined.

Lemma primitive_not_retried_witness :
  shouldRetry digitsToNumber (PStr "ETIMEDOUT") = false /\
  add digitsToNumber integerToString
    (alwaysThrows (PStr "ETIMEDOUT")) halfJitter (start (constructor [])) =
  (Throw (newError "ETIMEDOUT"),
   {| self := constructor []; calls := 1; draws := 0; sleeps := [] |}).
Proof.
  destruct (primitive_not_retried digitsToNumber integerToString (constructor [])
              (alwaysThrows (PStr "ETIMEDOUT")) halfJitter (PStr "ETIMEDOUT") eq_refl)
    as [Hs Hrun].
  split; [exact Hs | apply Hrun; reflexivity].
Defined.

Lemma add_retryable_exhausts_witness :
  (exists e,
     alwaysThrows (httpError 503) 3%nat = Throw e /\
     add digitsToNumber integerToString
       (alwaysThrows (httpError 503)) halfJitter (start (constructor [])) =
     (Throw (if instanceofError e then e else newError (ToString integerToString e)),
      {| self := constructor []; calls := 4; draws := 3;
         sleeps := backoffs (constructor []) halfJitter 3 |})) /\
  add digitsToNumber integerToString
    (failsThenFails 1 (httpError 503) (bareFailure 503)) halfJitter (start (constructor [])) =
  (Throw cannotConvert,
   {| self := constructor []; calls := 2; draws := 1;
      sleeps := backoffs (constructor []) halfJitter 1 |}).
Proof.
  destruct (add_retryable_exhausts digitsToNumber integerToString
              (constructor []) halfJitter) as (_ & Hall & Hstop).
  split.
  - apply (Hall (alwaysThrows (httpError 503))).
    intros i _. exists (httpError 503).
    split; [reflexivity |]. split; [vm_compute; reflexivity | left; reflexivity].
  - apply (Hstop (failsThenFails 1 (httpError 503) (bareFailure 503)) 1%nat (bareFailure 503)).
    + simpl. lia.
    + intros i Hi. exists (httpError 503).
      split; [destruct i as [| i]; [reflexivity | lia] |].
      split; [vm_compute; reflexivity | left; reflexivity].
    + reflexivity.
    + reflexivity.
    + reflexivity.
Defined.

Lemma add_rejection_reason_witness :
  exists n e,
    calls {| self := constructor []; calls := 1; draws := 0; sleeps := [] |} = S n /\
    alwaysThrows (httpError 400) n = Throw e /\
    (instanceofError e = true -> httpError 400 = e) /\
    (instanceofError e = false ->
       (forall text, StringOf integerToString e = Normal text ->
                     httpError 400 = newError text) /\
       (forall typeError, StringOf integerToString e = Throw typeError ->
                          httpError 400 = typeError)).
Proof.
  apply (add_rejection_reason digitsToNumber integerToString
           (constructor []) (alwaysThrows (httpError 400)) halfJitter).
  vm_compute. reflexivity.
Defined.

Lemma calculateDelay_interval_witness :
  (calculateDelay (A := exact) 1000 (1 # 2) 2 ==
     1000 * 2 ^ Z.of_nat 2 + (1 # 2) * (1 # 10) * (1000 * 2 ^ Z.of_nat 2) /\
   1000 * 2 ^ Z.of_nat 2 <= calculateDelay (A := exact) 1000 (1 # 2) 2 /\
   calculateDelay (A := exact) 1000 (1 # 2) 2 < 1000 * 2 ^ Z.of_nat 2 * (11 # 10))%Q /\
  ((1000 * num_pow2 2 <=? calculateDelay (baseDelay (constructor [])) 0.5 2) = true /\
   (calculateDelay (baseDelay (constructor [])) 0.5 2 <=? 1100 * num_pow2 2) = true)%float.
Proof.
  split.
  - apply (proj1 calculateDelay_interval 1000%Q (1 # 2)%Q 2%nat); reflexivity || discriminate.
  - apply (proj2 calculateDelay_interval 0.5%float 2%nat); [reflexivity | reflexivity | lia].
Defined.

Lemma calculateDelay_increasing_witness :
  (calculateDelay (A := exact) 1000 (9 # 10) 0 < 1000 * 2 ^ Z.of_nat 0 * (11 # 10) /\
   1000 * 2 ^ Z.of_nat 0 * (11 # 10) < 1000 * 2 ^ Z.of_nat 1 /\
   1000 * 2 ^ Z.of_nat 1 <= calculateDelay (A := exact) 1000 0 1 /\
   calculateDelay (A := exact) 1000 (9 # 10) 0 < calculateDelay (A := exact) 1000 0 1)%Q /\
  ((calculateDelay (baseDelay (constructor [])) belowOne 0 <=? 1100 * num_pow2 0) = true /\
   (1100 * num_pow2 0 <? 1000 * num_pow2 1) = true /\
   (1000 * num_pow2 1 <=? calculateDelay (baseDelay (constructor [])) 0 1) = true /\
   (calculateDelay (baseDelay (constructor [])) belowOne 0 <?
      calculateDelay (baseDelay (constructor [])) 0 1) = true)%float.
Proof.
  split.
  - apply (proj1 calculateDelay_increasing 1000%Q (9 # 10)%Q 0%Q 0%nat);
      reflexivity || discriminate.
  - apply (proj2 calculateDelay_increasing belowOne 0%float 0%nat);
      try reflexivity; lia.
Defined.

(** ** Where the specification and the code part *)

(** C1: a task that always throws the plain object [{ status: 503 }] is
    retried to the end (4 calls), and the rejection is not the object the
    final attempt threw but an Error made from it.  A task that always
    throws [Object.assign(Object.create(null), { status: 503 })], which is
    classified retryable as well, is called once, not 4 times:
    [String(error)] throws a TypeError, and that is the rejection. *)
Lemma retryable_plain_object_rejection_differs :
  (forall i, exists e, alwaysThrows (plainFailure 503) i = Throw e /\
                       shouldRetry digitsToNumber e = true) /\
  add digitsToNumber integerToString
    (alwaysThrows (plainFailure 503)) halfJitter (start (constructor [])) =
  (Throw (newError "[object Object]"),
   {| self := constructor []; calls := 4; draws := 3;
      sleeps := [1050%float; 2100%float; 4200%float] |}) /\
  newError "[object Object]" <> plainFailure 503 /\
  (forall i, exists e, alwaysThrows (bareFailure 503) i = Throw e /\
                       shouldRetry digitsToNumber e = true) /\
  add digitsToNumber integerToString
    (alwaysThrows (bareFailure 503)) halfJitter (start (constructor [])) =
  (Throw cannotConvert,
   {| self := constructor []; calls := 1; draws := 0; sleeps := [] |}) /\
  S (maxRetries (constructor [])) <> 1%nat /\
  cannotConvert <> bareFailure 503.
Proof.
  split; [| split; [| split; [| split; [| split; [| split]]]]].
  - intros i. exists (plainFailure 503). split; vm_compute; reflexivity.
  - vm_compute. reflexivity.
  - discriminate.
  - intros i. exists (bareFailure 503). split; vm_compute; reflexivity.
  - vm_compute. reflexivity.
  - discriminate.
  - discriminate.
Qed.

(** C2: the class [TimeoutError], thrown as a value, has the name
    'TimeoutError', yet [shouldRetry] answers false: [typeof] gives
    'function'. *)
Lemma named_function_not_retried :
  hasRetryableField digitsToNumber TimeoutErrorClass /\
  shouldRetry digitsToNumber TimeoutErrorClass = false.
Proof.
  split; [| vm_compute; reflexivity].
  unfold hasRetryableField. do 6 right. vm_compute. reflexivity.
Qed.

(** C3: with [maxRetries = 3], a task throwing the plain object
    [{ status: 400 }] is called once and rejected at once, but not with the
    object it threw.  Thrown without a prototype,
    [Object.assign(Object.create(null), { status: 400 })], the object makes
    [String(error)] throw, and the rejection is that TypeError. *)
Lemma non_retryable_plain_object_rejection_differs :
  (1 <= maxRetries (constructor []))%nat /\
  alwaysThrows (plainFailure 400) 0%nat = Throw (plainFailure 400) /\
  shouldRetry digitsToNumber (plainFailure 400) = false /\
  add digitsToNumber integerToString
    (alwaysThrows (plainFailure 400)) halfJitter (start (constructor [])) =
  (Throw (newError "[object Object]"),
   {| self := constructor []; calls := 1; draws := 0; sleeps := [] |}) /\
  newError "[object Object]" <> plainFailure 400 /\
  shouldRetry digitsToNumber (bareFailure 400) = false /\
  add digitsToNumber integerToString
    (alwaysThrows (bareFailure 400)) halfJitter (start (constructor [])) =
  (Throw cannotConvert,
   {| self := constructor []; calls := 1; draws := 0; sleeps := [] |}) /\
  cannotConvert <> bareFailure 400.
Proof.
  split; [simpl; lia |].
  split; [reflexivity |].
  split; [vm_compute; reflexivity |].
  split; [vm_compute; reflexivity |].
  split; [discriminate |].
  split; [vm_compute; reflexivity |].
  split; [vm_compute; reflexivity | discriminate].
Qed.

(** C4: on doubles the upper bound is reached.  With [baseDelay = 1000],
    attempt 0 and the jitter outcome [1 - 2^-53] (the largest double below
    1), the delay is exactly 1100 = 1000 * 2^0 * 1.1, not less -- whether
    the bound is taken exactly or computed in doubles.  The outcome
    [1 - 2^-52] gives 1100 as well. *)
Lemma calculateDelay_reaches_upper_bound :
  PrimFloat.leb 0 belowOne = true /\
  PrimFloat.ltb belowOne 1 = true /\
  calculateDelay (A := binary64) (baseDelay (constructor [])) belowOne 0 = 1100%float /\
  ~ (1100 < 1000 * 2 ^ Z.of_nat 0 * (11 # 10))%Q /\
  PrimFloat.ltb (calculateDelay (A := binary64) (baseDelay (constructor [])) belowOne 0)
    (1000 * num_pow2 0 * 0x1.199999999999ap+0)%float = false /\
  calculateDelay (A := binary64) (baseDelay (constructor [])) 0x1.ffffffffffffep-1%float 0 =
    1100%float.
Proof.
  split; [vm_compute; reflexivity |].
  split; [vm_compute; reflexivity |].
  split; [vm_compute; reflexivity |].
  split; [| split; vm_compute; reflexivity].
  intros H. vm_compute in H. discriminate.
Qed.

(** C5: a task throwing the string 'boom' is rejected with an Error whose
    message is 'boom', not with the string; a task throwing an object
    without prototype is rejected with the TypeError of [String(error)],
    not with the object. *)
Lemma thrown_string_is_wrapped :
  alwaysThrows (PStr "boom") 0%nat = Throw (VPrim (PStr "boom")) /\
  add digitsToNumber integerToString
    (alwaysThrows (PStr "boom")) halfJitter (start (constructor [])) =
  (Throw (newError "boom"),
   {| self := constructor []; calls := 1; draws := 0; sleeps := [] |}) /\
  newError "boom" <> VPrim (PStr "boom") /\
  add digitsToNumber integerToString
    (alwaysThrows (bareFailure 400)) halfJitter (start (constructor [])) =
  (Throw cannotConvert,
   {| self := constructor []; calls := 1; draws := 0; sleeps := [] |}) /\
  cannotConvert <> bareFailure 400.
Proof.
  split; [reflexivity |].
  split; [vm_compute; reflexivity |].
  split; [discriminate |].
  split; [vm_compute; reflexivity | discriminate].
Qed.

(** C9: on doubles the ordering is neither strict in its first step nor
    kept for every attempt index.  With [baseDelay = 1000], the delay of
    attempt 0 reaches 1100 = 1000 * 2^0 * 1.1 (jitter outcome [1 - 2^-53]),
    so it is not below that bound.  And 1000 * 2^1014 is a finite double
    while 1000 * 2^1015 is not: with the jitter outcome 0 the delay of
    attempt 1015 is [Infinity + 0 * 0.1 * Infinity], which is NaN, and the
    delay of attempt 1014 is neither below it nor equal to it. *)
Lemma calculateDelay_order_fails_on_doubles :
  PrimFloat.leb 0 belowOne = true /\
  PrimFloat.ltb belowOne 1 = true /\
  PrimFloat.ltb (calculateDelay (A := binary64) (baseDelay (constructor [])) belowOne 0)
    (1000 * num_pow2 0 * 0x1.199999999999ap+0)%float = false /\
  PrimFloat.leb 0%float 0%float = true /\
  PrimFloat.ltb 0%float 1%float = true /\
  PrimFloat.is_finite (calculateDelay (A := binary64) (baseDelay (constructor [])) 0%float 1014)
    = true /\
  PrimFloat.is_infinity (1000 * num_pow2 1015)%float = true /\
  PrimFloat.is_nan (calculateDelay (A := binary64) (baseDelay (constructor [])) 0%float 1015)
    = true /\
  PrimFloat.ltb (calculateDelay (A := binary64) (baseDelay (constructor [])) 0%float 1014)
    (calculateDelay (A := binary64) (baseDelay (constructor [])) 0%float 1015) = false /\
  PrimFloat.leb (calculateDelay (A := binary64) (baseDelay (constructor [])) 0%float 1014)
    (calculateDelay (A := binary64) (baseDelay (constructor [])) 0%float 1015) = false /\
  PrimFloat.leb (1000 * num_pow2 1015)%float
    (calculateDelay (A := binary64) (baseDelay (constructor [])) 0%float 1015) = false.
Proof.
  repeat split; vm_compute; reflexivity.
Qed.

(** C6: [new RetryQueue({ maxRetries: 5 })] has [maxRetries] 3: the option
    is not read. *)
Lemma constructor_ignores_options :
  requested [fiveRetries] "maxRetries" = PNum 5 /\
  maxRetries (constructor [fiveRetries]) = 3%nat /\
  maxRetries (constructor [fiveRetries]) <> 5%nat.
Proof.
  split; [vm_compute; reflexivity |].
  split; [reflexivity | simpl; lia].
Qed.

(** ** The further theorems at work *)

Lemma add_succeeds_after_retries_witness :
  add digitsToNumber integerToString
    (failsThenReturns 2 (httpError 429) (PStr "page")) halfJitter (start (constructor [])) =
  (Normal (VPrim (PStr "page")),
   {| self := constructor []; calls := 3; draws := 2;
      sleeps := backoffs (constructor []) halfJitter 2 |}).
Proof.
  apply (add_succeeds_after_retries digitsToNumber integerToString (constructor [])
           (failsThenReturns 2 (httpError 429) (PStr "page")) halfJitter 2%nat).
  - simpl. lia.
  - intros i Hi. exists (httpError 429).
    split; [destruct i as [| [| i]]; [reflexivity | reflexivity | lia] |].
    split; [vm_compute; reflexivity | left; reflexivity].
  - reflexivity.
Defined.

Lemma add_stops_at_first_fatal_witness :
  add digitsToNumber integerToString
    (failsThenFails 1 (httpError 503) (httpError 400)) halfJitter (start (constructor [])) =
  (Throw (if instanceofError (httpError 400) then httpError 400
          else match StringOf integerToString (httpError 400) with
               | Normal text => newError text
               | Throw typeError => typeError
               end),
   {| self := constructor []; calls := 2; draws := 1;
      sleeps := backoffs (constructor []) halfJitter 1 |}).
Proof.
  apply (add_stops_at_first_fatal digitsToNumber integerToString (constructor [])
           (failsThenFails 1 (httpError 503) (httpError 400)) halfJitter 1%nat).
  - simpl. lia.
  - intros i Hi. exists (httpError 503).
    split; [destruct i as [| i]; [reflexivity | lia] |].
    split; [vm_compute; reflexivity | left; reflexivity].
  - reflexivity.
  - vm_compute. reflexivity.
Defined.

Lemma backoff_schedule_bounds_witness :
  (2 < 3)%nat /\
  PrimFloat.leb (1000 * num_pow2 2) 4200 = true /\
  PrimFloat.leb 4200 (1100 * num_pow2 2) = true.
Proof.
  apply (backoff_schedule_bounds digitsToNumber integerToString
           (alwaysThrows (httpError 503)) halfJitter 2%nat 4200%float).
  - intros k. split; reflexivity.
  - vm_compute. reflexivity.
Defined.

Lemma backoff_schedule_increasing_witness :
  PrimFloat.ltb 1050 2100 = true.
Proof.
  apply (backoff_schedule_increasing digitsToNumber integerToString
           (alwaysThrows (httpError 503)) halfJitter 0%nat 1050%float 2100%float).
  - intros k. split; reflexivity.
  - vm_compute. reflexivity.
  - vm_compute. reflexivity.
Defined.

Lemma buildRequestParams_layout_witness :
  exists token more,
    [("token", "normal"); ("url", "https://example.com"); ("format", "html")] =
      ("token", token) :: ("url", param_url pageRequest) :: more /\
    Forall2 (fun entry sent => fst sent = fst entry /\
                               sentAs integerToString stubStringify entry (snd sent))
      (List.filter isSent (param_others pageRequest)) more /\
    Forall (fun sent => fst sent <> "token" /\ fst sent <> "url") more.
Proof.
  apply (buildRequestParams_layout integerToString stubStringify normalClient pageRequest).
  vm_compute. reflexivity.
Defined.

Lemma buildRequestParams_own_token_witness :
  (forall client',
     buildRequestParams integerToString stubStringify client' ownTokenRequest =
     buildRequestParams integerToString stubStringify bareClient ownTokenRequest) /\
  (forall searchParams,
     buildRequestParams integerToString stubStringify bareClient ownTokenRequest =
       Normal searchParams ->
     hd_error searchParams = Some ("token", "own")) /\
  ((forall entry, In entry (param_others ownTokenRequest) ->
                  typeof (snd entry) = "object" ->
                  exists json, stubStringify (snd entry) = Normal json) ->
   exists searchParams,
     buildRequestParams integerToString stubStringify bareClient ownTokenRequest =
       Normal searchParams).
Proof.
  apply (buildRequestParams_own_token integerToString stubStringify bareClient
           ownTokenRequest "own").
  - reflexivity.
  - discriminate.
Defined.

Lemma crawl_reports_rejection_witness :
  instanceofError (newError "Normal token required but not provided") = true /\
  crawl digitsToNumber integerToString stubStringify joinQuery digitsToNumber keepText
    (accept pageRequest) bareClient (answering (answer 200 "page" (Some "200")))
    halfJitter (VPrim PUndefined) =
  (Normal {| result_success := false;
             result_data := None;
             result_error :=
               Some {| error_error :=
                         GetV (newError "Normal token required but not provided") "message";
                       error_status := 500;
                       error_pc_status := None;
                       error_original_status := None |};
             result_requestId := requestId (answering (answer 200 "page" (Some "200")));
             result_duration :=
               PrimFloat.sub (DateNow (answering (answer 200 "page" (Some "200"))) AtCatch)
                 (DateNow (answering (answer 200 "page" (Some "200"))) AtStart) |},
   {| self := constructor []; calls := 1; draws := 0; sleeps := [] |}).
Proof.
  apply (crawl_reports_rejection digitsToNumber integerToString stubStringify joinQuery
           digitsToNumber keepText (accept pageRequest) bareClient
           (answering (answer 200 "page" (Some "200"))) halfJitter (VPrim PUndefined)
           pageRequest).
  - reflexivity.
  - vm_compute. reflexivity.
Defined.



Lemma crawl_without_token_witness :
  crawl digitsToNumber integerToString stubStringify joinQuery digitsToNumber keepText
    (accept pageRequest) bareClient (answering (answer 200 "page" (Some "200")))
    halfJitter (VPrim PUndefined) =
  (Normal {| result_success := false;
             result_data := None;
             result_error :=
               Some {| error_error :=
                         PStr (if existsb (fun key => ToBoolean (param pageRequest key)) jsOnly
                               then "JavaScript token required for this request but not provided"
                               else "Normal token required but not provided");
                       error_status := 500;
                       error_pc_status := None;
                       error_original_status := None |};
             result_requestId := requestId (answering (answer 200 "page" (Some "200")));
             result_duration :=
               PrimFloat.sub (DateNow (answering (answer 200 "page" (Some "200"))) AtCatch)
                 (DateNow (answering (answer 200 "page" (Some "200"))) AtStart) |},
   {| self := retryQueue bareClient; calls := 1; draws := 0; sleeps := [] |}).
Proof.
  apply (crawl_without_token digitsToNumber integerToString stubStringify joinQuery
           digitsToNumber keepText (accept pageRequest) bareClient
           (answering (answer 200 "page" (Some "200"))) halfJitter (VPrim PUndefined)
           pageRequest).
  - reflexivity.
  - left. reflexivity.
  - reflexivity.
Defined.

Lemma crawl_network_failure_witness :
  exists e,
    fetch (failing connectionReset (or_introl eq_refl)) (maxRetries (retryQueue normalClient))
      (baseUrl normalClient ++ "?" ++
       joinQuery [("token", "normal"); ("url", "https://example.com"); ("format", "html")]) =
      Throw e /\
    crawl digitsToNumber integerToString stubStringify joinQuery digitsToNumber keepText
      (accept pageRequest) normalClient (failing connectionReset (or_introl eq_refl))
      halfJitter (VPrim PUndefined) =
    (Normal {| result_success := false;
               result_data := None;
               result_error :=
                 Some {| error_error :=
                           GetV (if instanceofError e then e
                                 else newError (ToString integerToString e)) "message";
                         error_status := 500;
                         error_pc_status := None;
                         error_original_status := None |};
               result_requestId := requestId (failing connectionReset (or_introl eq_refl));
               result_duration :=
                 PrimFloat.sub (DateNow (failing connectionReset (or_introl eq_refl)) AtCatch)
                   (DateNow (failing connectionReset (or_introl eq_refl)) AtStart) |},
     {| self := retryQueue normalClient;
        calls := S (maxRetries (retryQueue normalClient));
        draws := maxRetries (retryQueue normalClient);
        sleeps := backoffs (retryQueue normalClient) halfJitter
                    (maxRetries (retryQueue normalClient)) |}).
Proof.
  apply (crawl_network_failure digitsToNumber integerToString stubStringify joinQuery
           digitsToNumber keepText (accept pageRequest) normalClient
           (failing connectionReset (or_introl eq_refl)) halfJitter (VPrim PUndefined) pageRequest
           [("token", "normal"); ("url", "https://example.com"); ("format", "html")]).
  - reflexivity.
  - vm_compute. reflexivity.
  - intros i Hi. exists connectionReset. split; [reflexivity | vm_compute; reflexivity].
Defined.


(** The test [name && value] is made before trimming: a name or a value
    of spaces passes it, and the cookie is kept under an empty key, or with
    an empty value. *)
Lemma parseCookies_blank_after_trim :
  parseCookies trimSpaces " =x, y= " !! EmptyString = Some "x" /\
  parseCookies trimSpaces " =x, y= " !! "y" = Some EmptyString /\
  parseCookies trimSpaces "=x, y=" = ∅.
Proof. repeat split; vm_compute; reflexivity. Qed.

Lemma generateExcerpt_cut_witness :
  hd_error (rev (generateExcerpt keepUnits (repeat 97%N 250))) = Some fullStop /\
  ((exists k, (101 < k <= 200)%nat /\
      generateExcerpt keepUnits (repeat 97%N 250) =
        firstn k (plainText keepUnits (repeat 97%N 250)) /\
      Forall (fun u => u <> fullStop)
        (skipn k (firstn 200 (plainText keepUnits (repeat 97%N 250))))) \/
   (generateExcerpt keepUnits (repeat 97%N 250) =
      (firstn 200 (plainText keepUnits (repeat 97%N 250)) ++
       [fullStop; fullStop; fullStop])%list /\
    Forall (fun u => u <> fullStop)
      (skipn 101 (firstn 200 (plainText keepUnits (repeat 97%N 250)))))).
Proof.
  apply (generateExcerpt_cut keepUnits (repeat 97%N 250)).
  vm_compute. lia.
Defined.

Lemma extractMarkdown_result_witness :
  markdown_title
    {| markdown_title := unitsOf "Untitled";
       markdown_content := unitsOf "hello";
       markdown_excerpt := unitsOf "hello";
       markdown_url := VPrim (PStr "https://example.com");
       markdown_length := 5 |} <> [] /\
  (forall u, hd_error (unitsOf "Untitled") = Some u -> isWhiteSpace u = false) /\
  (forall u, hd_error (rev (unitsOf "Untitled")) = Some u -> isWhiteSpace u = false) /\
  (exists root,
     Normal blankDocument = Normal root /\
     unitsOf "Untitled" =
       match extractTitle root with Some title => title | None => unitsOf "Untitled" end) /\
  5%nat = length (unitsOf "hello") /\
  unitsOf "hello" = generateExcerpt keepUnits (unitsOf "hello") /\
  (length (unitsOf "hello") <= 203)%nat /\
  VPrim (PStr "https://example.com") = VPrim (PStr "https://example.com").
Proof.
  apply (extractMarkdown_result integerToString keepUnits
           (fun _ => Normal blankDocument) (fun html => Normal html) (fun html => Normal html)
           (unitsOf "hello") (VPrim (PStr "https://example.com"))
           {| markdown_title := unitsOf "Untitled";
              markdown_content := unitsOf "hello";
              markdown_excerpt := unitsOf "hello";
              markdown_url := VPrim (PStr "https://example.com");
              markdown_length := 5 |}).
  vm_compute. reflexivity.
Defined.

Lemma extractMarkdown_throws_witness :
  instanceofError (newError "Failed to extract markdown: bad html") = true /\
  exists cause,
    (Throw (A := Root) (newError "bad html") = Throw cause \/
     Normal (unitsOf "<p>") = Throw cause \/
     exists cleaned, Normal (unitsOf "<p>") = Normal cleaned /\
                     Normal (A := list N) cleaned = Throw cause) /\
    newError "Failed to extract markdown: bad html" =
    newError ("Failed to extract markdown: " ++
              if instanceofError cause
              then ToString integerToString (VPrim (GetV cause "message"))
              else "Unknown error").
Proof.
  apply (extractMarkdown_throws integerToString keepUnits
           (fun _ => Throw (newError "bad html")) (fun html => Normal html)
           (fun html => Normal html) (unitsOf "<p>") (VPrim PUndefined)).
  vm_compute. reflexivity.
Defined.
